(** * homebridge-virtual-button: platform, switch controllers, HTTP endpoint

    A shallow embedding of [platform.ts] (the reconciler and the local
    command endpoint) and [platformAccessory.ts] (the switch controller).

    JavaScript strings are sequences of UTF-16 code units; objects that the
    code shares by reference (controllers, HTTP responses) live in stores of
    the world and are named by their position there; [async] methods are
    resumptions that stop at every timer ([sleep]) and are resumed by the
    event loop. *)

From Stdlib Require Import NArith Ascii String List Lia.
From stdpp Require Import base option list.
Import ListNotations.

Local Open Scope N_scope.

(** ** JavaScript strings *)

Module JsString.

(** A string value: its UTF-16 code units. *)
Definition jsstring := list N.

(** An ASCII literal of the source as a [jsstring]. *)
Definition js (s : string) : jsstring :=
  map N_of_ascii (list_ascii_of_string s).

Arguments js : simpl never.

Definition eqb (a b : jsstring) : bool := bool_decide (a = b).

(** [s.startsWith(pat)] *)
Fixpoint startsWith (pat s : jsstring) : bool :=
  match pat, s with
  | [], _ => true
  | _ :: _, [] => false
  | p :: pat', c :: s' => if N.eqb p c then startsWith pat' s' else false
  end.

(** [s.includes(pat)] *)
Fixpoint includes (pat s : jsstring) : bool :=
  if startsWith pat s then true
  else match s with
       | [] => false
       | _ :: s' => includes pat s'
       end.

(** [s.split(sep)] for a separator of one code unit: the pieces between
    the occurrences of [sep], always at least one piece. *)
Fixpoint split (sep : N) (s : jsstring) : list jsstring :=
  match s with
  | [] => [[]]
  | c :: s' =>
      if N.eqb c sep then [] :: split sep s'
      else match split sep s' with
           | [] => [[c]]
           | piece :: pieces => (c :: piece) :: pieces
           end
  end.

(** [s.replace(pat, rep)] with a string pattern: only the first
    occurrence of [pat] is replaced.  ([rep] is taken literally; the
    program passes the empty string, which holds no [$] pattern.) *)
Fixpoint replace (pat rep s : jsstring) : jsstring :=
  if startsWith pat s then rep ++ drop (length pat) s
  else match s with
       | [] => []
       | c :: s' => c :: replace pat rep s'
       end.

End JsString.
Import JsString.

(** ** [decodeURIComponent] (ECMAScript, abstract operation Decode) *)

Module URI.

Definition PERCENT : N := 37.

Definition hexDigit (c : N) : option N :=
  if (48 <=? c) && (c <=? 57) then Some (c - 48)
  else if (65 <=? c) && (c <=? 70) then Some (c - 55)
  else if (97 <=? c) && (c <=? 102) then Some (c - 87)
  else None.

(** ParseHexOctet: two hexadecimal digits give one octet. *)
Definition ParseHexOctet (h1 h2 : N) : option N :=
  match hexDigit h1, hexDigit h2 with
  | Some a, Some b => Some (16 * a + b)
  | _, _ => None
  end.

(** The number of leading 1 bits of an octet. *)
Definition leadingOnes (B : N) : nat :=
  if B <? 128 then 0%nat
  else if B <? 192 then 1%nat
  else if B <? 224 then 2%nat
  else if B <? 240 then 3%nat
  else if B <? 248 then 4%nat
  else 5%nat.

(** Reads [j] continuation escapes [%XX] at the head of [s]. *)
Fixpoint continuationOctets (j : nat) (s : jsstring) : option (list N) :=
  match j with
  | O => Some []
  | S j' =>
      match s with
      | p :: h1 :: h2 :: s' =>
          if N.eqb p PERCENT then
            match ParseHexOctet h1 h2 with
            | Some c =>
                match continuationOctets j' s' with
                | Some cs => Some (c :: cs)
                | None => None
                end
            | None => None
            end
          else None
      | _ => None
      end
  end.

Definition isContinuation (c : N) : bool := (128 <=? c) && (c <? 192).

(** The code point of a well-formed UTF-8 sequence of 2, 3 or 4 octets:
    continuation octets are 10xxxxxx, the encoding is the shortest one,
    and the value is no surrogate and at most 0x10FFFF. *)
Definition utf8CodePoint (octets : list N) : option N :=
  match octets with
  | [b0; b1] =>
      let V := (b0 - 192) * 64 + (b1 - 128) in
      if isContinuation b1 && (128 <=? V) then Some V else None
  | [b0; b1; b2] =>
      let V := (b0 - 224) * 4096 + (b1 - 128) * 64 + (b2 - 128) in
      if isContinuation b1 && isContinuation b2 && (2048 <=? V)
         && negb ((55296 <=? V) && (V <=? 57343))
      then Some V else None
  | [b0; b1; b2; b3] =>
      let V := (b0 - 240) * 262144 + (b1 - 128) * 4096
               + (b2 - 128) * 64 + (b3 - 128) in
      if isContinuation b1 && isContinuation b2 && isContinuation b3
         && (65536 <=? V) && (V <=? 1114111)
      then Some V else None
  | _ => None
  end.

Definition UTF16EncodeCodePoint (V : N) : jsstring :=
  if V <=? 65535 then [V]
  else [(V - 65536) / 1024 + 55296; (V - 65536) mod 1024 + 56320].

(** One escape sequence, read just after its first [%]: the code units it
    stands for, and how many code units it takes after that [%]. *)
Definition decodeEscape (s : jsstring) : option (jsstring * nat) :=
  match s with
  | h1 :: h2 :: s' =>
      match ParseHexOctet h1 h2 with
      | Some B =>
          match leadingOnes B with
          | 0%nat => Some ([B], 2%nat)
          | 1%nat => None
          | S (S (S (S (S _)))) => None
          | S m =>
              match continuationOctets m s' with
              | Some cs =>
                  match utf8CodePoint (B :: cs) with
                  | Some V => Some (UTF16EncodeCodePoint V, (2 + 3 * m)%nat)
                  | None => None
                  end
              | None => None
              end
          end
      | None => None
      end
  | _ => None
  end.

(** The loop of Decode over the code units from index [k] on; [skip]
    counts the code units of the escape sequence read last that are still
    ahead of [k].  [None] is the URIError. *)
Fixpoint DecodeFrom (skip : nat) (s : jsstring) : option jsstring :=
  match s with
  | [] => Some []
  | C :: s' =>
      match skip with
      | S skip' => DecodeFrom skip' s'
      | O =>
          if N.eqb C PERCENT then
            match decodeEscape s' with
            | Some (units, taken) =>
                match DecodeFrom taken s' with
                | Some R => Some (units ++ R)
                | None => None
                end
            | None => None
            end
          else
            match DecodeFrom 0 s' with
            | Some R => Some (C :: R)
            | None => None
            end
      end
  end.

Definition decodeURIComponent (s : jsstring) : option jsstring :=
  DecodeFrom 0 s.

End URI.
Import URI.


(** ** Values, log entries and the host's objects *)

Inductive JsValue :=
| VString (s : jsstring)
| VBoolean (b : bool)
| VUndefined.

Inductive LogLevel := LDebug | LInfo | LError.

(** One call of [log.debug], [log.info] or [log.error]. *)
Record LogEntry := {
  level : LogLevel;
  message : jsstring;
  params : list JsValue
}.

(** One entry of [config.switches]. *)
Record SwitchConfig := { name : jsstring }.

(** The host's accessory record: what the program reads of it.
    [context_switch] is [accessory.context.switch], which a record restored
    from the cache holds only if it was stored there. *)
Record PlatformAccessory := {
  displayName : jsstring;
  UUID : jsstring;
  context_switch : option SwitchConfig
}.

(** A switch controller object: [states.On] and the accessory it is bound
    to ([platform] is the one platform of the world, [service] is the
    Switch service of [accessory] on the host's side). *)
Record PlatformSwitchAccessory := {
  accessory : PlatformAccessory;
  states_On : bool
}.

Inductive ServiceType := AccessoryInformation | Switch.
Inductive Characteristic := Manufacturer | Model | SerialNumber | Name | On.

(** The calls the program makes on the host's objects, in order.  An
    accessory is named by its UUID, a controller by its reference. *)
Inductive HostCall :=
| SetCharacteristic (acc : jsstring) (svc : ServiceType)
    (c : Characteristic) (v : JsValue)
| GetOrAddService (acc : jsstring) (svc : ServiceType)
| OnSet (acc : jsstring) (controller : nat)
| OnGet (acc : jsstring) (controller : nat)
| UpdateCharacteristic (acc : jsstring) (svc : ServiceType)
    (c : Characteristic) (v : JsValue)
| RegisterPlatformAccessories (accs : list PlatformAccessory).

(** ** HTTP messages *)

Record IncomingMessage := {
  method : jsstring;
  url : option jsstring
}.

Record ServerResponse := {
  headers : list (jsstring * jsstring);
  statusCode : option N;
  body : jsstring;
  finished : bool
}.

Definition freshResponse : ServerResponse :=
  {| headers := []; statusCode := None; body := []; finished := false |}.

(** ** The world: the platform object, the object stores, the effects *)

Record World := {
  (* fields of ExampleHomebridgePlatform and of its constructor arguments *)
  config_name : JsValue;
  config_switches : option (list SwitchConfig);
  generate : jsstring -> jsstring;
  accessories : list PlatformAccessory;
  instances : list nat;
  requestServer : option N;
  (* the objects shared by reference *)
  controllers : list PlatformSwitchAccessory;
  responses : list ServerResponse;
  (* what the program did to the outside *)
  log : list LogEntry;
  host : list HostCall
}.

Definition with_accessories (x : list PlatformAccessory) (w : World) : World :=
  {| config_name := config_name w; config_switches := config_switches w;
     generate := generate w; accessories := x; instances := instances w;
     requestServer := requestServer w; controllers := controllers w;
     responses := responses w; log := log w; host := host w |}.

Definition with_instances (x : list nat) (w : World) : World :=
  {| config_name := config_name w; config_switches := config_switches w;
     generate := generate w; accessories := accessories w; instances := x;
     requestServer := requestServer w; controllers := controllers w;
     responses := responses w; log := log w; host := host w |}.

Definition with_requestServer (x : option N) (w : World) : World :=
  {| config_name := config_name w; config_switches := config_switches w;
     generate := generate w; accessories := accessories w;
     instances := instances w; requestServer := x;
     controllers := controllers w; responses := responses w;
     log := log w; host := host w |}.

Definition with_controllers (x : list PlatformSwitchAccessory) (w : World)
  : World :=
  {| config_name := config_name w; config_switches := config_switches w;
     generate := generate w; accessories := accessories w;
     instances := instances w; requestServer := requestServer w;
     controllers := x; responses := responses w; log := log w;
     host := host w |}.

Definition with_responses (x : list ServerResponse) (w : World) : World :=
  {| config_name := config_name w; config_switches := config_switches w;
     generate := generate w; accessories := accessories w;
     instances := instances w; requestServer := requestServer w;
     controllers := controllers w; responses := x; log := log w;
     host := host w |}.

Definition with_log (x : list LogEntry) (w : World) : World :=
  {| config_name := config_name w; config_switches := config_switches w;
     generate := generate w; accessories := accessories w;
     instances := instances w; requestServer := requestServer w;
     controllers := controllers w; responses := responses w; log := x;
     host := host w |}.

Definition with_host (x : list HostCall) (w : World) : World :=
  {| config_name := config_name w; config_switches := config_switches w;
     generate := generate w; accessories := accessories w;
     instances := instances w; requestServer := requestServer w;
     controllers := controllers w; responses := responses w; log := log w;
     host := x |}.

(** ** Asynchronous code as resumptions *)

(** [BadReference] is no JavaScript error: it stands for a reference that
    is not in its store, which no world built by the program contains. *)
Inductive JsError := TypeError | URIError | BadReference.

(** What a call has done when control goes back to the event loop: it
    returned, it threw (for an [async] function: its promise is rejected),
    or it waits for a timer of [ms] milliseconds, after which [k] goes on
    from the world as it is by then. *)
Inductive Outcome (A : Type) : Type :=
| Returned (w : World) (a : A)
| Thrown (w : World) (e : JsError)
| Sleeping (w : World) (ms : N) (k : World -> Outcome A).
Arguments Returned {A} w a.
Arguments Thrown {A} w e.
Arguments Sleeping {A} w ms k.

Definition Async (A : Type) : Type := World -> Outcome A.

Fixpoint andThen {A B} (o : Outcome A) (f : A -> Async B) : Outcome B :=
  match o with
  | Returned w a => f a w
  | Thrown w e => Thrown w e
  | Sleeping w ms k => Sleeping w ms (fun w' => andThen (k w') f)
  end.

Definition ret {A} (a : A) : Async A := fun w => Returned w a.
Definition bind {A B} (m : Async A) (f : A -> Async B) : Async B :=
  fun w => andThen (m w) f.
Definition throw {A} (e : JsError) : Async A := fun w => Thrown w e.
Definition gets {A} (f : World -> A) : Async A := fun w => Returned w (f w).
Definition modify (f : World -> World) : Async unit :=
  fun w => Returned (f w) tt.

Notation "'let*' x ':=' m 'in' k" := (bind m (fun x => k))
  (at level 10, x name, m at level 100, k at level 200).
Notation "m ';;;' k" := (bind m (fun _ => k))
  (at level 100, k at level 200, right associativity).

(** [const sleep = async (ms) => new Promise(resolve => setTimeout(resolve, ms))],
    awaited. *)
Definition sleep (ms : N) : Async unit :=
  fun w => Sleeping w ms (fun w' => Returned w' tt).

(** The world once the call is over, and how it ended, when nothing else
    runs while its timers are pending. *)
Fixpoint uninterrupted {A} (o : Outcome A) : World * (A + JsError) :=
  match o with
  | Returned w a => (w, inl a)
  | Thrown w e => (w, inr e)
  | Sleeping w _ k => uninterrupted (k w)
  end.

(** The delays the call waits for, in order, when nothing else runs. *)
Fixpoint delays {A} (o : Outcome A) : list N :=
  match o with
  | Returned _ _ | Thrown _ _ => []
  | Sleeping w ms k => ms :: delays (k w)
  end.

Definition logCall (l : LogLevel) (msg : jsstring) (ps : list JsValue)
  : Async unit :=
  modify (fun w =>
    with_log (log w ++ [{| level := l; message := msg; params := ps |}]) w).

Definition hostCall (c : HostCall) : Async unit :=
  modify (fun w => with_host (host w ++ [c]) w).

(** ** platformAccessory.ts: the switch controller *)

Module Controller.

Definition QUOTE : jsstring := [34].

(** [this], for a method: the controller object behind the reference. *)
Definition deref (this : nat) : Async PlatformSwitchAccessory :=
  fun w => match controllers w !! this with
           | Some c => Returned w c
           | None => Thrown w BadReference
           end.

(** [accessory.context.switch.name]: a TypeError when [context.switch] is
    undefined. *)
Definition contextSwitchName (a : PlatformAccessory) : Async jsstring :=
  match context_switch a with
  | Some sw => ret (name sw)
  | None => throw TypeError
  end.

(** [new PlatformSwitchAccessory(platform, accessory)]: the object is
    allocated with [states = { On: false }], then the constructor body
    runs.  The result is the reference of the new controller. *)
Definition new (accessory : PlatformAccessory) : Async nat :=
  let* this := gets (fun w => length (controllers w)) in
  modify (fun w =>
    with_controllers
      (controllers w ++ [{| accessory := accessory; states_On := false |}]) w) ;;;
  hostCall (SetCharacteristic (UUID accessory) AccessoryInformation
              Manufacturer (VString (js "Default-Manufacturer"))) ;;;
  hostCall (SetCharacteristic (UUID accessory) AccessoryInformation
              Model (VString (js "Default-Model"))) ;;;
  hostCall (SetCharacteristic (UUID accessory) AccessoryInformation
              SerialNumber (VString (js "Default-Serial"))) ;;;
  hostCall (GetOrAddService (UUID accessory) Switch) ;;;
  let* n := contextSwitchName accessory in
  hostCall (SetCharacteristic (UUID accessory) Switch Name (VString n)) ;;;
  hostCall (OnSet (UUID accessory) this) ;;;
  hostCall (OnGet (UUID accessory) this) ;;;
  ret this.

Definition getName (this : nat) : Async jsstring :=
  let* c := deref this in
  contextSwitchName (accessory c).

Definition getOn (this : nat) : Async bool :=
  let* c := deref this in
  ret (states_On c).

(** [this.states.On = value] *)
Definition assignOn (this : nat) (value : bool) : Async unit :=
  let* c := deref this in
  modify (fun w =>
    with_controllers
      (<[this := {| accessory := accessory c; states_On := value |}]>
         (controllers w)) w).

Definition setOn (this : nat) (value : bool) : Async unit :=
  let* c := deref this in
  let* n := contextSwitchName (accessory c) in
  logCall LInfo (js "Set Characteristic On -> for " ++ QUOTE ++ n ++ QUOTE)
    [VBoolean value] ;;;
  assignOn this value ;;;
  sleep 300.

(** [this.service?.updateCharacteristic(Characteristic.On, this.states?.On)] *)
Definition propagateOn (this : nat) : Async unit :=
  let* c := deref this in
  hostCall (UpdateCharacteristic (UUID (accessory c)) Switch On
              (VBoolean (states_On c))).

Definition toggleState (this : nat) : Async unit :=
  let* isOn := getOn this in
  setOn this (negb isOn) ;;;
  propagateOn this.

Definition setStateOn (this : nat) : Async unit :=
  setOn this true ;;;
  propagateOn this ;;;
  sleep 1500 ;;;
  setOn this false ;;;
  propagateOn this.

End Controller.

(** ** platform.ts: the platform, its HTTP endpoint and its reconciler *)

Module Platform.

Definition QUESTION : N := 63.

(** [new ExampleHomebridgePlatform(log, config, api)]: the field
    initialisers and the constructor body.  ([api.on] only stores the
    listener; see [didFinishLaunching].) *)
Definition construct (cfgName : JsValue)
  (switches : option (list SwitchConfig)) (uuidGenerate : jsstring -> jsstring)
  : World :=
  {| config_name := cfgName; config_switches := switches;
     generate := uuidGenerate; accessories := []; instances := [];
     requestServer := None; controllers := []; responses := [];
     log := [{| level := LDebug;
                message := js "Finished initializing platform:";
                params := [cfgName] |}];
     host := [] |}.

(** *** The response object *)

Definition updateResponse (res : nat) (f : ServerResponse -> ServerResponse)
  : Async unit :=
  fun w => match responses w !! res with
           | Some r => Returned (with_responses (<[res := f r]> (responses w)) w) tt
           | None => Thrown w BadReference
           end.

(** [res.setHeader(h, v)]: replaces the value of a header already set.
    (Header names are compared as written; the four names the program sets
    differ whatever the case.) *)
Definition setHeader (res : nat) (h v : jsstring) : Async unit :=
  updateResponse res (fun r =>
    {| headers := filter (fun hv => hv.1 ≠ h) (headers r) ++ [(h, v)];
       statusCode := statusCode r; body := body r; finished := finished r |}).

(** [res.writeHead(code)] *)
Definition writeHead (res : nat) (code : N) : Async unit :=
  updateResponse res (fun r =>
    {| headers := headers r; statusCode := Some code; body := body r;
       finished := finished r |}).

(** [res.end()], without data *)
Definition end_ (res : nat) : Async unit :=
  updateResponse res (fun r =>
    {| headers := headers r; statusCode := statusCode r; body := body r;
       finished := true |}).

(** *** handleRequest *)

(** [request.url?.includes("/toggle")] *)
Definition urlIncludesToggle (request : IncomingMessage) : bool :=
  match url request with
  | Some u => includes (js "/toggle") u
  | None => false
  end.

(** [const [_url, query] = request.url ? request.url.split("?") : []]:
    the second piece, undefined when there is none. *)
Definition queryOf (request : IncomingMessage) : option jsstring :=
  match url request with
  | Some (c :: u) => split QUESTION (c :: u) !! 1%nat
  | _ => None
  end.

(** [query ? query.replace("name=", "") : ""] *)
Definition nameRawOf (query : option jsstring) : jsstring :=
  match query with
  | Some (c :: q) => replace (js "name=") [] (c :: q)
  | _ => []
  end.

(** [this.instances.find((i) => i.getName() === name)] over the
    references [l]. *)
Fixpoint find (target : jsstring) (l : list nat) : Async (option nat) :=
  match l with
  | [] => ret None
  | i :: l' =>
      let* n := Controller.getName i in
      if eqb n target then ret (Some i) else find target l'
  end.

Definition handleRequest (request : IncomingMessage) (response : nat)
  : Async unit :=
  (if urlIncludesToggle request then
     let query := queryOf request in
     let nameRaw := nameRawOf query in
     match decodeURIComponent nameRaw with
     | None => throw URIError
     | Some target =>
         let* l := gets instances in
         let* instance := find target l in
         match instance with
         | Some i => Controller.toggleState i
         | None =>
             logCall LError (js "Could not find instance for name:")
               [VString target]
         end
     end
   else ret tt) ;;;
  writeHead response 204 ;;;
  end_ response.

(** *** createHttpService *)

(** The listener given to [http.createServer].  Its last statement calls
    [handleRequest] without awaiting it: the listener returns at the first
    suspension of that call, and what is left of the call runs on as its
    promise; [Thrown] is then the rejection of that promise, which nothing
    handles. *)
Definition requestListener (req : IncomingMessage) (res : nat) : Async unit :=
  setHeader res (js "Access-Control-Allow-Origin") (js "*") ;;;
  setHeader res (js "Access-Control-Allow-Methods")
    (js "GET, POST, OPTIONS, PUT, PATCH, DELETE") ;;;
  setHeader res (js "Access-Control-Allow-Headers")
    (js "X-Requested-With,content-type") ;;;
  setHeader res (js "Access-Control-Allow-Credentials") (js "true") ;;;
  if eqb (method req) (js "OPTIONS") then
    writeHead res 200 ;;;
    end_ res
  else
    handleRequest req res.

(** The server receives a request: a new response object, then the
    listener.  The result is the reference of the response. *)
Definition emitRequest (req : IncomingMessage) : Async nat :=
  let* res := gets (fun w => length (responses w)) in
  modify (fun w => with_responses (responses w ++ [freshResponse]) w) ;;;
  requestListener req res ;;;
  ret res.

(** [createHttpService()]; the callback of [listen] runs later, see
    [listening]. *)
Definition createHttpService : Async unit :=
  modify (with_requestServer (Some 18082)).

Definition listening : Async unit :=
  logCall LInfo (js "Http server listening on 18082...") [].

(** *** configureAccessory and discoverDevices *)

Definition configureAccessory (a : PlatformAccessory) : Async unit :=
  logCall LInfo (js "Loading accessory from cache:") [VString (displayName a)] ;;;
  modify (fun w => with_accessories (accessories w ++ [a]) w).

(** [this.accessories.find((accessory) => accessory.UUID === uuid)] *)
Definition findAccessory (uuid : jsstring) (l : list PlatformAccessory)
  : option PlatformAccessory :=
  List.find (fun a => eqb (UUID a) uuid) l.

(** The body of the loop of [discoverDevices] for one configured switch.
    (The plugin and platform names given to [registerPlatformAccessories]
    are constants of settings.ts and are not recorded.) *)
Definition discoverDevice (button : SwitchConfig) : Async unit :=
  let* uuid := gets (fun w => generate w (name button)) in
  let* existingAccessory := gets (fun w => findAccessory uuid (accessories w)) in
  match existingAccessory with
  | Some existing =>
      logCall LInfo (js "Restoring existing accessory from cache:")
        [VString (displayName existing)] ;;;
      let* instance := Controller.new existing in
      modify (fun w => with_instances (instances w ++ [instance]) w)
  | None =>
      logCall LInfo (js "Adding new accessory:") [VString (name button)] ;;;
      let acc := {| displayName := name button; UUID := uuid;
                    context_switch := Some button |} in
      let* instance := Controller.new acc in
      modify (fun w => with_instances (instances w ++ [instance]) w) ;;;
      hostCall (RegisterPlatformAccessories [acc])
  end.

Fixpoint forEach {A} (body : A -> Async unit) (l : list A) : Async unit :=
  match l with
  | [] => ret tt
  | x :: l' => body x ;;; forEach body l'
  end.

Definition discoverDevices : Async unit :=
  let* switches := gets config_switches in
  match switches with
  | None => ret tt
  | Some switches => forEach discoverDevice switches
  end.

(** The listener of the host's ["didFinishLaunching"] event. *)
Definition didFinishLaunching : Async unit :=
  createHttpService ;;;
  discoverDevices.

End Platform.

(** ** The event loop: what the host and the network make the program do *)

Module EventLoop.

(** The world, the continuations waiting for their timers, and the errors
    nothing caught. *)
Record System := {
  world : World;
  pending : list (World -> Outcome unit);
  uncaught : list JsError
}.

Inductive Event :=
| ConfigureAccessory (a : PlatformAccessory)
    (* the host restores one record of its cache *)
| DidFinishLaunching
| Listening
| Request (req : IncomingMessage)
| Timer (i : nat)
    (* the timer of the [i]-th waiting continuation fires; timers may fire
       in any order, which covers the order the clock imposes *)
| HostSet (controller : nat) (value : bool)
    (* the host calls the handler bound with [onSet] *)
| HostGet (controller : nat).

Definition boot (cfgName : JsValue) (switches : option (list SwitchConfig))
  (uuidGenerate : jsstring -> jsstring) : System :=
  {| world := Platform.construct cfgName switches uuidGenerate;
     pending := []; uncaught := [] |}.

(** The controller [c] has given the host its handler with [onSet]
    (with [onGet]). *)
Definition boundOnSet (c : nat) (calls : list HostCall) : bool :=
  existsb (fun h => match h with
                    | OnSet _ c' => Nat.eqb c c'
                    | _ => false
                    end) calls.

Definition boundOnGet (c : nat) (calls : list HostCall) : bool :=
  existsb (fun h => match h with
                    | OnGet _ c' => Nat.eqb c c'
                    | _ => false
                    end) calls.

(** Control is back at the event loop. *)
Definition settle (o : Outcome unit) (s : System) : System :=
  match o with
  | Returned w _ =>
      {| world := w; pending := pending s; uncaught := uncaught s |}
  | Thrown w e =>
      {| world := w; pending := pending s; uncaught := uncaught s ++ [e] |}
  | Sleeping w _ k =>
      {| world := w; pending := pending s ++ [k]; uncaught := uncaught s |}
  end.

Definition start (m : Async unit) (s : System) : System :=
  settle (m (world s)) s.

Definition fire (i : nat) (s : System) : System :=
  match pending s !! i with
  | Some k =>
      settle (k (world s))
        {| world := world s; pending := delete i (pending s);
           uncaught := uncaught s |}
  | None => s
  end.

Definition step (e : Event) (s : System) : System :=
  match e with
  | ConfigureAccessory a => start (Platform.configureAccessory a) s
  | DidFinishLaunching => start Platform.didFinishLaunching s
  | Listening => start Platform.listening s
  | Request req =>
      match requestServer (world s) with
      | Some _ => start (Platform.emitRequest req ;;; ret tt) s
      | None => s
      end
  | Timer i => fire i s
  | HostSet c v =>
      if boundOnSet c (host (world s))
      then start (Controller.setOn c v) s else s
  | HostGet c =>
      if boundOnGet c (host (world s))
      then start (Controller.getOn c ;;; ret tt) s else s
  end.

Definition run (es : list Event) (s : System) : System :=
  fold_left (fun s e => step e s) es s.

End EventLoop.

(** * Specification vocabulary *)

Import Controller Platform EventLoop.

(** Every world the call hands back to the event loop is related by [R] to
    the world the call was last given, whatever ran while it slept. *)
Inductive Keeps {A} (R : World -> World -> Prop) : World -> Outcome A -> Prop :=
| keeps_returned w0 w a : R w0 w -> Keeps R w0 (Returned w a)
| keeps_thrown w0 w e : R w0 w -> Keeps R w0 (Thrown w e)
| keeps_sleeping w0 w ms k :
    R w0 w -> (forall w', Keeps R w' (k w')) -> Keeps R w0 (Sleeping w ms k).


(** The Live Controller Set has only been appended to. *)
Definition appended (w0 w : World) : Prop :=
  exists l, instances w = instances w0 ++ l.

(** The call is over when it gives control back: it waits for no timer. *)
Definition Immediate {A} (o : Outcome A) : Prop :=
  match o with
  | Sleeping _ _ _ => False
  | _ => True
  end.


(** The name [getName()] gives for the controller behind [i], when the
    controller is in the store and its accessory has its context. *)
Definition nameOf (w : World) (i : nat) : option jsstring :=
  match controllers w !! i with
  | Some c => name <$> context_switch (accessory c)
  | None => None
  end.

(** The Live Controller Set is the same list of references, and every
    reference stands for a controller of the same name as before. *)
Definition framed (w0 w : World) : Prop :=
  instances w = instances w0 /\ forall i, nameOf w i = nameOf w0 i.

(** Every continuation that waits for a timer leaves the Live Controller
    Set as it finds it. *)
Definition quiet (s : System) : Prop :=
  Forall (fun k => forall w, Keeps framed w (k w)) (pending s).

(** The call is over, and [P] holds of the world it leaves. *)
Definition Settled {A} (P : World -> Prop) (o : Outcome A) : Prop :=
  match o with
  | Returned w _ | Thrown w _ => P w
  | Sleeping _ _ _ => False
  end.

(** The On state of the controller behind [i]. *)
Definition stateOf (w : World) (i : nat) : option bool :=
  states_On <$> controllers w !! i.

(** Every member of the Live Controller Set is a controller whose
    constructor has completed. *)
Definition wellFormed (w : World) : Prop :=
  Forall (fun i => is_Some (nameOf w i)) (instances w).

(** The first member of the Live Controller Set, in its order, whose name
    is [target]. *)
Definition firstNamed (w : World) (target : jsstring) : option nat :=
  List.find (fun i => bool_decide (nameOf w i = Some target)) (instances w).


(** The records handed to [registerPlatformAccessories] so far. *)
Definition registered (calls : list HostCall) : list PlatformAccessory :=
  flat_map (fun c => match c with
                     | RegisterPlatformAccessories accs => accs
                     | _ => []
                     end) calls.

(** Every configured switch has its record in [this.accessories], with the
    context the plugin stored in it. *)
Definition allCached (w : World) (switches : list SwitchConfig) : Prop :=
  Forall (fun b => exists a,
            findAccessory (generate w (name b)) (accessories w) = Some a
            /\ is_Some (context_switch a)) switches.

(** The log entry [setOn(v)] writes for a switch configured as [sw]. *)
Definition setOnEntry (sw : SwitchConfig) (v : bool) : LogEntry :=
  {| level := LInfo;
     message := js "Set Characteristic On -> for " ++ QUOTE ++ name sw ++ QUOTE;
     params := [VBoolean v] |}.

(** The world once [setOn(v)] has logged and assigned, on the controller
    [c] behind [this]. *)
Definition afterSetOn (this : nat) (c : PlatformSwitchAccessory)
  (sw : SwitchConfig) (v : bool) (w : World) : World :=
  with_controllers
    (<[this := {| accessory := accessory c; states_On := v |}]> (controllers w))
    (with_log (log w ++ [setOnEntry sw v]) w).

(** The host call that propagates the On value [v] of controller [c]. *)
Definition propagated (c : PlatformSwitchAccessory) (v : bool) : HostCall :=
  UpdateCharacteristic (UUID (accessory c)) Switch On (VBoolean v).

(** The calls the constructor of a controller makes on the host, for the
    accessory [a] whose context names the switch [n], the new controller
    being [this]. *)
Definition constructorCalls (a : PlatformAccessory) (n : jsstring) (this : nat)
  : list HostCall :=
  [ SetCharacteristic (UUID a) AccessoryInformation Manufacturer
      (VString (js "Default-Manufacturer"));
    SetCharacteristic (UUID a) AccessoryInformation Model
      (VString (js "Default-Model"));
    SetCharacteristic (UUID a) AccessoryInformation SerialNumber
      (VString (js "Default-Serial"));
    GetOrAddService (UUID a) Switch;
    SetCharacteristic (UUID a) Switch Name (VString n);
    OnSet (UUID a) this;
    OnGet (UUID a) this ].

(** The world after [new PlatformSwitchAccessory(this, a)] has returned. *)
Definition afterNew (a : PlatformAccessory) (n : jsstring) (w : World) : World :=
  with_host (host w ++ constructorCalls a n (length (controllers w)))
    (with_controllers
       (controllers w ++ [{| accessory := a; states_On := false |}]) w).

(** The world after one turn of the loop of [discoverDevices] that found
    the record [a] in the cache. *)
Definition afterRestore (a : PlatformAccessory) (n : jsstring) (w : World)
  : World :=
  let w1 :=
    with_log (log w ++ [{| level := LInfo;
                           message := js "Restoring existing accessory from cache:";
                           params := [VString (displayName a)] |}]) w in
  with_instances (instances w ++ [length (controllers w)]) (afterNew a n w1).

(** The world after one turn of the loop of [discoverDevices] that found
    no record for [button] and made one. *)
Definition afterAdd (button : SwitchConfig) (w : World) : World :=
  let a := {| displayName := name button; UUID := generate w (name button);
              context_switch := Some button |} in
  let w1 :=
    with_log (log w ++ [{| level := LInfo;
                           message := js "Adding new accessory:";
                           params := [VString (name button)] |}]) w in
  let w2 :=
    with_instances (instances w ++ [length (controllers w)])
      (afterNew a (name button) w1) in
  with_host (host w2 ++ [RegisterPlatformAccessories [a]]) w2.




(** The record the cache holds for a configured switch carries, in its
    context, the name the switch is configured with. *)
Definition cachedUnderName (w : World) (switches : list SwitchConfig) : Prop :=
  Forall (fun b => forall a sw,
            findAccessory (generate w (name b)) (accessories w) = Some a ->
            context_switch a = Some sw -> name sw = name b) switches.

(** The controller behind [i] is bound to the record the cache of [w]
    holds for the configured switch [b], and has its name from it. *)
Definition boundTo (w w' : World) (b : SwitchConfig) (i : nat) : Prop :=
  exists a sw,
    findAccessory (generate w (name b)) (accessories w) = Some a
    /\ context_switch a = Some sw
    /\ controllers w' !! i = Some {| accessory := a; states_On := false |}
    /\ nameOf w' i = Some (name sw).

(** The four CORS headers, as the listener sets them. *)
Definition corsHeaders : list (jsstring * jsstring) :=
  [ (js "Access-Control-Allow-Origin", js "*");
    (js "Access-Control-Allow-Methods",
     js "GET, POST, OPTIONS, PUT, PATCH, DELETE");
    (js "Access-Control-Allow-Headers", js "X-Requested-With,content-type");
    (js "Access-Control-Allow-Credentials", js "true") ].

(** A response with the CORS headers that has not been answered yet. *)
Definition openResponse : ServerResponse :=
  {| headers := corsHeaders; statusCode := None; body := [];
     finished := false |}.

(** A response ended with the status [code] and no body. *)
Definition emptyResponse (code : N) : ServerResponse :=
  {| headers := corsHeaders; statusCode := Some code; body := [];
     finished := true |}.

(** The log entry for a name no controller has. *)
Definition notFoundEntry (target : jsstring) : LogEntry :=
  {| level := LError; message := js "Could not find instance for name:";
     params := [VString target] |}.

(** *** The request parameter, in the words of the specification *)

Definition AMPERSAND : N := 38.
Definition EQUALS : N := 61.

(** The text after the first occurrence of [sep], if there is one. *)
Fixpoint afterFirst (sep : N) (s : jsstring) : option jsstring :=
  match s with
  | [] => None
  | c :: s' => if N.eqb c sep then Some s' else afterFirst sep s'
  end.

(** The text before the first occurrence of [sep] (all of it if there is
    none). *)
Fixpoint beforeFirst (sep : N) (s : jsstring) : jsstring :=
  match s with
  | [] => []
  | c :: s' => if N.eqb c sep then [] else c :: beforeFirst sep s'
  end.

(** Following the specification's words, "the name parameter is extracted
    from the query string (exact key [name])": the query string is what
    follows the first [?]; it is a sequence of [key=value] pairs separated
    by [&]; the parameter is the value of the first pair whose key is
    [key]. *)
Definition queryParameter (key : jsstring) (u : jsstring) : option jsstring :=
  match afterFirst QUESTION u with
  | Some query =>
      match List.find (fun kv => eqb (beforeFirst EQUALS kv) key)
              (split AMPERSAND query) with
      | Some kv => afterFirst EQUALS kv
      | None => None
      end
  | None => None
  end.

(** The name a request asks for, in the specification's words: the
    percent-decoded value of the query-string key [name]. *)
Definition requestedName (req : IncomingMessage) : option jsstring :=
  match url req with
  | Some u =>
      match queryParameter (js "name") u with
      | Some v => decodeURIComponent v
      | None => None
      end
  | None => None
  end.

(** The request [req], handled in the world [w] with nothing interleaved,
    toggles the first controller named by its [name] parameter. *)
Definition routesByNameParameter (w : World) (req : IncomingMessage) : Prop :=
  forall target i b,
    requestedName req = Some target ->
    firstNamed w target = Some i ->
    stateOf w i = Some b ->
    stateOf (uninterrupted (emitRequest req w)).1 i = Some (negb b).

(** The platform of the next process, before its launch: constructed with
    the same configuration and host, it has been given back every record
    the host holds for it, those the process before had restored and
    those it registered. *)
Definition restarted (w : World) : World :=
  (uninterrupted
     (forEach configureAccessory (accessories w ++ registered (host w))
        (construct (config_name w) (config_switches w) (generate w)))).1.

(** ** Sample worlds *)

Definition mockGenerate (n : jsstring) : jsstring := js "uuid-" ++ n.

Definition cfg (n : string) : SwitchConfig := {| name := js n |}.

Definition cachedRecord (n : string) : PlatformAccessory :=
  {| displayName := js n; UUID := mockGenerate (js n);
     context_switch := Some (cfg n) |}.

Definition GET (u : string) : IncomingMessage :=
  {| method := js "GET"; url := Some (js u) |}.

(** A platform configured with Kitchen and Garage, after launch with an
    empty cache. *)
Definition kitchenGarage : World :=
  (uninterrupted
     (didFinishLaunching
        (construct VUndefined (Some [cfg "Kitchen"; cfg "Garage"]) mockGenerate))).1.


(** A platform configured with Front Door, after launch with an empty
    cache. *)
Definition frontDoor : World :=
  (uninterrupted
     (didFinishLaunching
        (construct VUndefined (Some [cfg "Front Door"]) mockGenerate))).1.

(** A platform configured with Kitchen whose record came back from the
    cache, before launch. *)
Definition kitchenRestored : World :=
  (uninterrupted
     (configureAccessory (cachedRecord "Kitchen")
        (construct VUndefined (Some [cfg "Kitchen"]) mockGenerate))).1.

(** ** Vocabulary of the further properties *)

(** Whatever the call does after its first suspension, each time it hands
    control back the world is related by [R] to the world it was resumed
    in. *)
Definition Tails {A} (R : World -> World -> Prop) (o : Outcome A) : Prop :=
  match o with
  | Sleeping _ _ k => forall w', Keeps R w' (k w')
  | _ => True
  end.

(** Every continuation that waits for a timer keeps [R]. *)
Definition Quiet (R : World -> World -> Prop) (s : System) : Prop :=
  Forall (fun k => forall w, Keeps R w (k w)) (pending s).

(** Every controller has the On state it had. *)
Definition sameStates (w0 w : World) : Prop :=
  forall i, stateOf w i = stateOf w0 i.

(** The HTTP server is as it was. *)
Definition sameServer (w0 w : World) : Prop :=
  requestServer w = requestServer w0.

(** What holds of every state the event loop reaches: the waiting
    continuations keep the Live Controller Set, the On states and the
    server, and the Live Controller Set is well formed. *)
Definition steady (s : System) : Prop :=
  quiet s /\ Quiet sameStates s /\ Quiet sameServer s /\ wellFormed (world s).

(** The response object behind [j] is as it was. *)
Definition sameResponse (j : nat) (w0 w : World) : Prop :=
  responses w !! j = responses w0 !! j.

(** The response object behind [j] has the headers it had. *)
Definition sameHeaders (j : nat) (w0 w : World) : Prop :=
  headers <$> responses w !! j = headers <$> responses w0 !! j.

(** The request asks the handler to toggle the switch [target]: it is no
    preflight, its URL contains /toggle, and the text the handler decodes
    is [target]. *)
Definition togglesFor (target : jsstring) (req : IncomingMessage) : Prop :=
  method req <> js "OPTIONS"
  /\ urlIncludesToggle req = true
  /\ decodeURIComponent (nameRawOf (queryOf req)) = Some target.

(** The event is a toggle request for [target], or a timer. *)
Definition toggleOrTimer (target : jsstring) (e : Event) : Prop :=
  match e with
  | Request req => togglesFor target req
  | Timer _ => True
  | _ => False
  end.

Definition isRequest (e : Event) : bool :=
  match e with
  | Request _ => true
  | _ => false
  end.

(** The cache holds no record for the configured switch, or it holds one
    that has its context: the turn of the loop for this switch completes. *)
Definition usable (w : World) (button : SwitchConfig) : Prop :=
  match findAccessory (generate w (name button)) (accessories w) with
  | Some a => is_Some (context_switch a)
  | None => True
  end.

(** The cache holds no record for the configured switch. *)
Definition uncached (w : World) (button : SwitchConfig) : bool :=
  match findAccessory (generate w (name button)) (accessories w) with
  | Some _ => false
  | None => true
  end.

(** The record [discoverDevices] makes for a configured switch that has
    none. *)
Definition newRecord (w : World) (button : SwitchConfig) : PlatformAccessory :=
  {| displayName := name button; UUID := generate w (name button);
     context_switch := Some button |}.

(** The handler that [c] gave the host with [onSet] belongs to a
    controller whose constructor completed. *)
Definition handlersBound (w : World) : Prop :=
  forall c, boundOnSet c (host w) = true -> is_Some (nameOf w c).

(** The same controllers have given the host a handler with [onSet]. *)
Definition sameBound (w0 w : World) : Prop :=
  forall c, boundOnSet c (host w) = boundOnSet c (host w0).

(** * Properties *)

Local Open Scope nat_scope.

(** ** Strings and percent-decoding on examples *)

Example decode_plain : decodeURIComponent (js "Kitchen") = Some (js "Kitchen").
Proof. reflexivity. Qed.

Example decode_space :
  decodeURIComponent (js "Front%20Door") = Some (js "Front Door").
Proof. reflexivity. Qed.

Example decode_euro : decodeURIComponent (js "%E2%82%AC") = Some [8364%N].
Proof. reflexivity. Qed.

Example decode_astral :
  decodeURIComponent (js "%F0%9F%98%80") = Some [55357%N; 56832%N].
Proof. reflexivity. Qed.

Example decode_lone_percent : decodeURIComponent (js "%") = None.
Proof. reflexivity. Qed.

Example decode_overlong : decodeURIComponent (js "%C0%80") = None.
Proof. reflexivity. Qed.

Example decode_surrogate : decodeURIComponent (js "%ED%A0%80") = None.
Proof. reflexivity. Qed.

Example split_query :
  split QUESTION (js "/toggle?name=Kitchen")
  = [js "/toggle"; js "name=Kitchen"].
Proof. reflexivity. Qed.

Example replace_first_only :
  replace (js "name=") [] (js "a=1&name=K&name=L") = js "a=1&K&name=L".
Proof. reflexivity. Qed.

Example name_after_other_parameter :
  nameRawOf (queryOf (GET "/toggle?id=7&name=Kitchen")) = js "id=7&Kitchen".
Proof. reflexivity. Qed.

(** ** The resumption monad *)

Section KeepsLemmas.

Context (R : World -> World -> Prop) `{!PreOrder R}.

Lemma keeps_andThen {A B} (o : Outcome A) (f : A -> Async B) w0 :
  Keeps R w0 o ->
  (forall a w, Keeps R w (f a w)) ->
  Keeps R w0 (andThen o f).
Proof.
  intros Ho Hf. induction Ho as [w0 w a Hr|w0 w e Hr|w0 w ms k Hr Hk IH]; simpl.
  - specialize (Hf a w). destruct Hf; constructor; auto; etrans; eauto.
  - by constructor.
  - constructor; auto.
Qed.

Lemma keeps_bind {A B} (m : Async A) (f : A -> Async B) :
  (forall w, Keeps R w (m w)) ->
  (forall a w, Keeps R w (f a w)) ->
  forall w, Keeps R w (bind m f w).
Proof. intros Hm Hf w. by apply keeps_andThen. Qed.

Lemma keeps_ret {A} (a : A) w : Keeps R w (ret a w).
Proof. by constructor. Qed.

Lemma keeps_throw {A} e w : Keeps R w (@throw A e w).
Proof. by constructor. Qed.

Lemma keeps_gets {A} (f : World -> A) w : Keeps R w (gets f w).
Proof. by constructor. Qed.

Lemma keeps_sleep ms w : Keeps R w (sleep ms w).
Proof. constructor; [done|]. intros w'. by constructor. Qed.

Lemma keeps_modify f :
  (forall w, R w (f w)) -> forall w, Keeps R w (modify f w).
Proof. intros Hf w. constructor. apply Hf. Qed.

End KeepsLemmas.

Lemma Keeps_mono {A} (R R' : World -> World -> Prop) w (o : Outcome A) :
  (forall a b, R a b -> R' a b) -> Keeps R w o -> Keeps R' w o.
Proof. intros HR Ho. induction Ho; constructor; auto. Qed.

#[local] Instance framed_preorder : PreOrder framed.
Proof.
  split; [by intros w|]. intros a b c [Hab Hab'] [Hbc Hbc']. split.
  - congruence.
  - intros i. by rewrite Hbc', Hab'.
Qed.

#[local] Instance appended_preorder : PreOrder appended.
Proof.
  split.
  - intros w. exists []. by rewrite app_nil_r.
  - intros a b c [l Hab] [l' Hbc]. exists (l ++ l').
    rewrite Hbc, Hab. by rewrite app_assoc.
Qed.

(** ** Who changes the Live Controller Set *)

Create HintDb keeps.

Ltac keeps_step :=
  first
    [ match goal with |- PreOrder _ => typeclasses eauto end
    | solve [auto with keeps]
    | apply keeps_ret | apply keeps_throw | apply keeps_gets | apply keeps_sleep
    | apply keeps_modify;
        first [typeclasses eauto | intros ?; split; [reflexivity | intros ?; reflexivity]]
    | apply keeps_bind; [typeclasses eauto | intros ? | intros ? ?] ].

Ltac keeps := intros; repeat keeps_step.

Lemma deref_keeps this w : Keeps framed w (deref this w).
Proof. unfold deref. destruct (controllers w !! this); by constructor. Qed.

Lemma contextSwitchName_keeps a w :
  Keeps framed w (contextSwitchName a w).
Proof. unfold contextSwitchName. destruct (context_switch a); keeps. Qed.

Lemma logCall_keeps l msg ps w : Keeps framed w (logCall l msg ps w).
Proof. unfold logCall. keeps. Qed.

Lemma hostCall_keeps c w : Keeps framed w (hostCall c w).
Proof. unfold hostCall. keeps. Qed.

#[local] Hint Resolve deref_keeps contextSwitchName_keeps logCall_keeps
  hostCall_keeps : keeps.

Lemma getName_keeps this w : Keeps framed w (getName this w).
Proof. unfold getName. keeps. Qed.

Lemma getOn_keeps this w : Keeps framed w (getOn this w).
Proof. unfold getOn. keeps. Qed.

Lemma assignOn_keeps this v w : Keeps framed w (assignOn this v w).
Proof.
  unfold assignOn, bind, deref, modify.
  destruct (controllers w !! this) as [c|] eqn:Hc; cbn; constructor; [|done].
  split; [done|]. intros i. unfold nameOf. cbn.
  destruct (decide (i = this)) as [->|Hne].
  - rewrite list_lookup_insert_eq by (by eapply lookup_lt_Some). by rewrite Hc.
  - by rewrite list_lookup_insert_ne.
Qed.

#[local] Hint Resolve getName_keeps getOn_keeps assignOn_keeps : keeps.

Lemma setOn_keeps this v w : Keeps framed w (setOn this v w).
Proof. unfold setOn. keeps. Qed.

Lemma propagateOn_keeps this w : Keeps framed w (propagateOn this w).
Proof. unfold propagateOn. keeps. Qed.

#[local] Hint Resolve setOn_keeps propagateOn_keeps : keeps.

Lemma toggleState_keeps this w : Keeps framed w (toggleState this w).
Proof. unfold toggleState. keeps. Qed.

Lemma setStateOn_keeps this w : Keeps framed w (setStateOn this w).
Proof. unfold setStateOn. keeps. Qed.

Lemma updateResponse_keeps res f w :
  Keeps framed w (updateResponse res f w).
Proof. unfold updateResponse. destruct (responses w !! res); by constructor. Qed.

#[local] Hint Resolve toggleState_keeps updateResponse_keeps : keeps.

Lemma find_keeps target l w : Keeps framed w (find target l w).
Proof.
  revert w. induction l as [|i l IH]; intros w; simpl; keeps.
  destruct (eqb _ _); keeps.
Qed.

#[local] Hint Resolve find_keeps : keeps.

Lemma handleRequest_keeps req res w :
  Keeps framed w (handleRequest req res w).
Proof.
  unfold handleRequest, writeHead, end_. keeps.
  destruct (urlIncludesToggle req); keeps.
  destruct (decodeURIComponent _); keeps.
  match goal with |- context [match ?o with _ => _ end] => destruct o end; keeps.
Qed.

#[local] Hint Resolve handleRequest_keeps : keeps.

Lemma requestListener_keeps req res w :
  Keeps framed w (requestListener req res w).
Proof.
  unfold requestListener, setHeader, writeHead, end_. keeps.
  destruct (eqb _ _); keeps.
Qed.

#[local] Hint Resolve requestListener_keeps : keeps.

Lemma emitRequest_keeps req w : Keeps framed w (emitRequest req w).
Proof. unfold emitRequest. keeps. Qed.

Lemma configureAccessory_keeps a w :
  Keeps framed w (configureAccessory a w).
Proof. unfold configureAccessory. keeps. Qed.

Lemma listening_keeps w : Keeps framed w (listening w).
Proof. apply logCall_keeps. Qed.


Lemma framed_appended a b : framed a b -> appended a b.
Proof. intros [H _]. exists []. by rewrite app_nil_r. Qed.

Lemma new_appended a w : Keeps appended w (new a w).
Proof.
  assert (Hhost : forall c w, Keeps appended w (hostCall c w)).
  { intros. eapply Keeps_mono; [apply framed_appended | apply hostCall_keeps]. }
  assert (Hname : forall a w, Keeps appended w (contextSwitchName a w)).
  { intros. eapply Keeps_mono;
      [apply framed_appended | apply contextSwitchName_keeps]. }
  unfold new.
  repeat first
    [ solve [auto]
    | apply keeps_ret; typeclasses eauto
    | apply keeps_gets; typeclasses eauto
    | apply keeps_bind; [typeclasses eauto | intros ? | intros ? ?] ].
  constructor. exists []. by rewrite app_nil_r.
Qed.

Lemma discoverDevice_appended button w :
  Keeps appended w (discoverDevice button w).
Proof.
  assert (Hpush : forall i w, Keeps appended w
            (modify (fun w => with_instances (instances w ++ [i]) w) w)).
  { intros i w0. constructor. by exists [i]. }
  assert (Hnew : forall a w, Keeps appended w (new a w))
    by apply new_appended.
  assert (Hlog : forall l m ps w, Keeps appended w (logCall l m ps w)).
  { intros. eapply Keeps_mono; [apply framed_appended | apply logCall_keeps]. }
  assert (Hhost : forall c w, Keeps appended w (hostCall c w)).
  { intros. eapply Keeps_mono; [apply framed_appended | apply hostCall_keeps]. }
  unfold discoverDevice.
  apply keeps_bind; [typeclasses eauto | intros; apply keeps_gets; typeclasses eauto |].
  intros uuid w1.
  apply keeps_bind; [typeclasses eauto | intros; apply keeps_gets; typeclasses eauto |].
  intros [existing|] w2; cbv zeta;
    repeat first
      [ solve [auto]
      | apply keeps_bind; [typeclasses eauto | intros ? | intros ? ?] ].
Qed.

Lemma forEach_appended l w : Keeps appended w (forEach discoverDevice l w).
Proof.
  revert w. induction l as [|b l IH]; intros w; simpl.
  - apply keeps_ret. typeclasses eauto.
  - apply keeps_bind; [typeclasses eauto | intros; apply discoverDevice_appended | auto].
Qed.

Lemma discoverDevices_appended w : Keeps appended w (discoverDevices w).
Proof.
  unfold discoverDevices.
  apply keeps_bind; [typeclasses eauto | intros; apply keeps_gets; typeclasses eauto |].
  intros [sws|] w1; [apply forEach_appended | apply keeps_ret; typeclasses eauto].
Qed.

Lemma didFinishLaunching_appended w : Keeps appended w (didFinishLaunching w).
Proof.
  unfold didFinishLaunching, createHttpService.
  apply keeps_bind; [typeclasses eauto | | intros; apply discoverDevices_appended].
  intros w0. constructor. by apply framed_appended.
Qed.

(** *** Reconciliation is synchronous *)

Lemma immediate_andThen {A B} (o : Outcome A) (f : A -> Async B) :
  Immediate o -> (forall a w, Immediate (f a w)) -> Immediate (andThen o f).
Proof. destruct o; simpl; auto. Qed.

Lemma immediate_bind {A B} (m : Async A) (f : A -> Async B) w :
  (forall w, Immediate (m w)) -> (forall a w, Immediate (f a w)) ->
  Immediate (bind m f w).
Proof. intros Hm Hf. apply immediate_andThen; auto. Qed.

Create HintDb immediate.

Ltac immediate :=
  intros;
  repeat first
    [ exact I
    | solve [auto with immediate]
    | apply immediate_bind; [intros ? | intros ? ?] ].

Lemma contextSwitchName_immediate a w : Immediate (contextSwitchName a w).
Proof. unfold contextSwitchName. by destruct (context_switch a). Qed.

#[local] Hint Resolve contextSwitchName_immediate : immediate.

Lemma new_immediate a w : Immediate (new a w).
Proof. unfold new. immediate. Qed.

#[local] Hint Resolve new_immediate : immediate.

Lemma discoverDevice_immediate button w : Immediate (discoverDevice button w).
Proof.
  unfold discoverDevice.
  apply immediate_bind; [intros; exact I|]. intros uuid w1.
  apply immediate_bind; [intros; exact I|]. intros [existing|] w2;
    cbv zeta; immediate.
Qed.

Lemma forEach_immediate l w : Immediate (forEach discoverDevice l w).
Proof.
  revert w. induction l as [|b l IH]; intros w; simpl; [exact I|].
  apply immediate_bind; auto using discoverDevice_immediate.
Qed.

Lemma didFinishLaunching_immediate w : Immediate (didFinishLaunching w).
Proof.
  unfold didFinishLaunching, discoverDevices.
  apply immediate_bind; [intros; exact I|]. intros _ w1.
  apply immediate_bind; [intros; exact I|]. intros [sws|] w2;
    [apply forEach_immediate | exact I].
Qed.

(** *** The event loop *)

Lemma settle_same o s :
  Keeps framed (world s) o -> quiet s ->
  quiet (settle o s) /\ framed (world s) (world (settle o s)).
Proof.
  intros Ho Hq. inversion Ho; subst; simpl; split; auto.
  apply Forall_app; split; [exact Hq|]. by apply Forall_singleton.
Qed.

Lemma settle_immediate o s :
  Immediate o -> quiet s -> quiet (settle o s).
Proof. destruct o; simpl; intros Hi Hq; [exact Hq | exact Hq | destruct Hi]. Qed.

Lemma settle_appended o s :
  Keeps appended (world s) o -> appended (world s) (world (settle o s)).
Proof. intros Ho. inversion Ho; subst; simpl; auto. Qed.

Lemma fire_same i s :
  quiet s ->
  quiet (fire i s) /\ framed (world s) (world (fire i s)).
Proof.
  intros Hq. unfold fire. destruct (pending s !! i) as [k|] eqn:Hk; [|done].
  apply (settle_same (k (world s))
           {| world := world s; pending := delete i (pending s);
              uncaught := uncaught s |}); simpl.
  - exact (Forall_lookup_1 _ (pending s) i k Hq Hk (world s)).
  - unfold quiet. simpl. by apply Forall_delete.
Qed.

Lemma step_same e s :
  e <> DidFinishLaunching -> quiet s ->
  quiet (step e s) /\ framed (world s) (world (step e s)).
Proof.
  intros He Hq. destruct e; simpl; try congruence.
  - apply settle_same; auto using configureAccessory_keeps.
  - apply settle_same; auto using listening_keeps.
  - destruct (requestServer (world s)); [|done].
    apply settle_same; auto.
    apply keeps_bind; [typeclasses eauto | apply emitRequest_keeps |].
    intros; apply keeps_ret; typeclasses eauto.
  - by apply fire_same.
  - destruct (boundOnSet _ _); [|done]. apply settle_same; auto using setOn_keeps.
  - destruct (boundOnGet _ _); [|done]. apply settle_same; auto.
    apply keeps_bind; [typeclasses eauto | apply getOn_keeps |].
    intros; apply keeps_ret; typeclasses eauto.
Qed.

Lemma step_launch s :
  quiet s ->
  quiet (step DidFinishLaunching s)
  /\ appended (world s) (world (step DidFinishLaunching s)).
Proof.
  intros Hq. simpl. unfold start. split.
  - apply settle_immediate; auto using didFinishLaunching_immediate.
  - apply settle_appended, didFinishLaunching_appended.
Qed.

Lemma step_quiet e s : quiet s -> quiet (step e s).
Proof.
  intros Hq. destruct e; try (apply step_same; [discriminate | exact Hq]).
  by apply step_launch.
Qed.

Lemma run_quiet es s : quiet s -> quiet (run es s).
Proof.
  revert s. induction es as [|e es IH]; intros s Hq; simpl; [exact Hq|].
  apply IH, step_quiet, Hq.
Qed.

Lemma run_before_launch es s :
  quiet s -> ~ In DidFinishLaunching es ->
  instances (world (run es s)) = instances (world s).
Proof.
  revert s. induction es as [|e es IH]; intros s Hq Hin; simpl; [done|].
  destruct (step_same e s) as [Hq' [Hi _]]; auto.
  { intros ->. apply Hin. by left. }
  rewrite IH; auto. intros H. apply Hin. by right.
Qed.

Lemma boot_quiet cfgName switches gen : quiet (boot cfgName switches gen).
Proof. constructor. Qed.

(** [C9] The Live Controller Set is empty when the platform is constructed
    and stays empty under every sequence of host and network events that
    does not contain the restoration-complete signal; in every state the
    program can reach, an event other than that signal (a restored record,
    a request, a timer that resumes a request or a controller operation, a
    host get or set) leaves the list of members exactly as it was, and the
    signal's reconciliation pass only appends to it.  Each controller
    operation and the handling of each request, at every suspension and at
    its end, whatever ran in between, hands back a world with the same list
    of members, each standing for a controller of the same name. *)
Theorem live_controller_set_append_only
  (cfgName : JsValue) (switches : option (list SwitchConfig))
  (gen : jsstring -> jsstring) (es : list Event) (e : Event) :
  let s := run es (boot cfgName switches gen) in
  (~ In DidFinishLaunching es -> instances (world s) = [])
  /\ (e <> DidFinishLaunching ->
      instances (world (step e s)) = instances (world s))
  /\ (exists l,
        instances (world (step DidFinishLaunching s)) = instances (world s) ++ l)
  /\ (forall this v req w,
        Keeps framed w (getOn this w)
        /\ Keeps framed w (setOn this v w)
        /\ Keeps framed w (toggleState this w)
        /\ Keeps framed w (setStateOn this w)
        /\ Keeps framed w (emitRequest req w)).
Proof.
  intros s.
  assert (Hq : quiet s) by apply run_quiet, boot_quiet.
  split; [|split; [|split]].
  - intros Hin. unfold s. rewrite run_before_launch; auto using boot_quiet.
  - intros He. by apply step_same.
  - by apply step_launch.
  - intros this v req w.
    auto using getOn_keeps, setOn_keeps, toggleState_keeps, setStateOn_keeps,
      emitRequest_keeps.
Qed.

Lemma live_controller_set_append_only_witness :
  let es := [ConfigureAccessory (cachedRecord "Kitchen"); DidFinishLaunching;
             Request (GET "/toggle?name=Kitchen")] in
  let s := run es (boot VUndefined (Some [cfg "Kitchen"]) mockGenerate) in
  instances (world (run [ConfigureAccessory (cachedRecord "Kitchen")]
                      (boot VUndefined (Some [cfg "Kitchen"]) mockGenerate))) = []
  /\ instances (world (step (Timer 0) s)) = instances (world s).
Proof.
  split.
  - apply (live_controller_set_append_only VUndefined (Some [cfg "Kitchen"])
             mockGenerate [ConfigureAccessory (cachedRecord "Kitchen")]
             DidFinishLaunching).
    simpl. intros [H|[]]. discriminate H.
  - apply (live_controller_set_append_only VUndefined (Some [cfg "Kitchen"])
             mockGenerate
             [ConfigureAccessory (cachedRecord "Kitchen"); DidFinishLaunching;
              Request (GET "/toggle?name=Kitchen")] (Timer 0)).
    discriminate.
Defined.

(** ** The switch controller *)

Lemma getOn_run this c w :
  controllers w !! this = Some c -> getOn this w = Returned w (states_On c).
Proof. intros Hc. unfold getOn, bind, deref. by rewrite Hc. Qed.

Lemma setOn_run this c sw v w :
  controllers w !! this = Some c ->
  context_switch (accessory c) = Some sw ->
  setOn this v w =
    Sleeping (afterSetOn this c sw v w) 300 (fun w' => Returned w' tt).
Proof.
  intros Hc Hsw.
  unfold setOn, assignOn, bind, deref, contextSwitchName, logCall, modify, sleep.
  rewrite Hc. cbn. rewrite Hsw. cbn. by rewrite Hc.
Qed.

Lemma afterSetOn_lookup this c sw v w :
  controllers w !! this = Some c ->
  controllers (afterSetOn this c sw v w) !! this
  = Some {| accessory := accessory c; states_On := v |}.
Proof.
  intros Hc. cbn. apply list_lookup_insert_eq. by eapply lookup_lt_Some.
Qed.

Lemma afterSetOn_other this c sw v w j :
  j <> this ->
  controllers (afterSetOn this c sw v w) !! j = controllers w !! j.
Proof. intros Hj. cbn. by apply list_lookup_insert_ne. Qed.

Lemma stateOf_afterSetOn this c sw v w :
  controllers w !! this = Some c ->
  stateOf (afterSetOn this c sw v w) this = Some v.
Proof.
  intros Hc. unfold stateOf. by rewrite (afterSetOn_lookup _ _ _ _ _ Hc).
Qed.

Lemma stateOf_afterSetOn_other this c sw v w j :
  j <> this -> stateOf (afterSetOn this c sw v w) j = stateOf w j.
Proof. intros Hj. unfold stateOf. by rewrite afterSetOn_other. Qed.

Lemma stateOf_with_host h w i : stateOf (with_host h w) i = stateOf w i.
Proof. reflexivity. Qed.

Lemma propagateOn_run this c w :
  controllers w !! this = Some c ->
  propagateOn this w
  = Returned (with_host (host w ++ [propagated c (states_On c)]) w) tt.
Proof. intros Hc. unfold propagateOn, bind, deref. by rewrite Hc. Qed.

Lemma toggleState_run this c sw w :
  controllers w !! this = Some c ->
  context_switch (accessory c) = Some sw ->
  toggleState this w =
    Sleeping (afterSetOn this c sw (negb (states_On c)) w) 300
      (fun w' => propagateOn this w').
Proof.
  intros Hc Hsw. unfold toggleState, bind.
  rewrite (getOn_run _ _ _ Hc). cbn. by rewrite (setOn_run _ _ _ _ _ Hc Hsw).
Qed.

Lemma toggleState_uninterrupted this c sw w :
  controllers w !! this = Some c ->
  context_switch (accessory c) = Some sw ->
  uninterrupted (toggleState this w) =
    (with_host (host w ++ [propagated c (negb (states_On c))])
       (afterSetOn this c sw (negb (states_On c)) w), inl tt).
Proof.
  intros Hc Hsw. rewrite (toggleState_run _ _ _ _ Hc Hsw). cbn [uninterrupted].
  by rewrite (propagateOn_run _ _ _ (afterSetOn_lookup _ _ sw _ _ Hc)).
Qed.

(** [C3] For a constructed controller, one call of [toggleState()] that
    runs to completion with nothing interleaved returns normally and leaves
    the stored On state negated; a second such call returns it to the
    state it started from.  From [false] the state is thus [true] after
    the first call and [false] after the second. *)
Theorem toggleState_negates_state
  (this : nat) (c : PlatformSwitchAccessory) (sw : SwitchConfig) (w : World) :
  controllers w !! this = Some c ->
  context_switch (accessory c) = Some sw ->
  let once := uninterrupted (toggleState this w) in
  let twice := uninterrupted (toggleState this once.1) in
  once.2 = inl tt
  /\ stateOf once.1 this = Some (negb (states_On c))
  /\ twice.2 = inl tt
  /\ stateOf twice.1 this = Some (states_On c)
  /\ (states_On c = false ->
      stateOf once.1 this = Some true /\ stateOf twice.1 this = Some false).
Proof.
  intros Hc Hsw once twice.
  assert (H1 : once = (with_host (host w ++ [propagated c (negb (states_On c))])
                         (afterSetOn this c sw (negb (states_On c)) w), inl tt))
    by apply (toggleState_uninterrupted _ _ _ _ Hc Hsw).
  assert (Hc1 : controllers once.1 !! this
                = Some {| accessory := accessory c;
                          states_On := negb (states_On c) |}).
  { rewrite H1. apply (afterSetOn_lookup _ _ sw _ _ Hc). }
  assert (H2 : stateOf twice.1 this = Some (states_On c) /\ twice.2 = inl tt).
  { unfold twice.
    rewrite (toggleState_uninterrupted _ _ sw _ Hc1 Hsw). cbn [fst snd].
    split; [|done].
    rewrite stateOf_with_host, (stateOf_afterSetOn _ _ _ _ _ Hc1). cbn.
    by rewrite negb_involutive. }
  assert (H3 : stateOf once.1 this = Some (negb (states_On c)))
    by (unfold stateOf; by rewrite Hc1).
  destruct H2 as [H2 H2'].
  split; [by rewrite H1|]. split; [exact H3|]. split; [exact H2'|].
  split; [exact H2|]. intros Hoff. rewrite H3, H2, Hoff. by split.
Qed.

Lemma toggleState_negates_state_witness :
  let c := {| accessory := cachedRecord "Kitchen"; states_On := false |} in
  let once := uninterrupted (toggleState 0 kitchenGarage) in
  let twice := uninterrupted (toggleState 0 once.1) in
  stateOf once.1 0 = Some true /\ stateOf twice.1 0 = Some false.
Proof.
  intros c once twice.
  refine (proj2 (proj2 (proj2 (proj2
            (toggleState_negates_state 0 c (cfg "Kitchen") kitchenGarage
               _ _)))) _); reflexivity.
Defined.

(** [C4] For every value [v], [setOn(v)] on a constructed controller logs
    one informational entry that holds the switch name and [v], assigns the
    On state, and only then waits for its settle delay of 300 ms: at that
    suspension, before the call completes, [getOn()] already returns [v];
    what is left after the delay changes nothing and just completes the
    call, so the state is [v] as well once the call is over. *)
Theorem setOn_assigns_before_delay
  (this : nat) (c : PlatformSwitchAccessory) (sw : SwitchConfig) (v : bool)
  (w : World) :
  controllers w !! this = Some c ->
  context_switch (accessory c) = Some sw ->
  exists w1 k,
    setOn this v w = Sleeping w1 300 k
    /\ getOn this w1 = Returned w1 v
    /\ (forall w', k w' = Returned w' tt)
    /\ uninterrupted (setOn this v w) = (w1, inl tt)
    /\ log w1 = log w ++ [{| level := LInfo;
                             message := js "Set Characteristic On -> for "
                                          ++ QUOTE ++ name sw ++ QUOTE;
                             params := [VBoolean v] |}]
    /\ getName this w = Returned w (name sw).
Proof.
  intros Hc Hsw.
  exists (afterSetOn this c sw v w), (fun w' => Returned w' tt).
  rewrite (setOn_run _ _ _ _ _ Hc Hsw).
  split; [done|]. split.
  { by rewrite (getOn_run _ _ _ (afterSetOn_lookup _ _ sw v _ Hc)). }
  split; [done|]. split; [done|]. split; [done|].
  unfold getName, bind, deref, contextSwitchName. rewrite Hc. cbn. by rewrite Hsw.
Qed.

Lemma setOn_assigns_before_delay_witness :
  exists w1 k,
    setOn 1 true kitchenGarage = Sleeping w1 300 k
    /\ getOn 1 w1 = Returned w1 true
    /\ (forall w', k w' = Returned w' tt)
    /\ uninterrupted (setOn 1 true kitchenGarage) = (w1, inl tt)
    /\ log w1 = log kitchenGarage
                ++ [{| level := LInfo;
                       message := js "Set Characteristic On -> for "
                                    ++ QUOTE ++ name (cfg "Garage") ++ QUOTE;
                       params := [VBoolean true] |}]
    /\ getName 1 kitchenGarage = Returned kitchenGarage (name (cfg "Garage")).
Proof.
  apply (setOn_assigns_before_delay 1
           {| accessory := cachedRecord "Garage"; states_On := false |}
           (cfg "Garage") true kitchenGarage); reflexivity.
Defined.

(** [C5] [setStateOn()] on a constructed controller is the pulse: it sets
    On to true and waits the settle delay (300 ms) with the state [true];
    it then propagates [true] to the host and holds for 1500 ms, still
    [true]; it then sets On to false and waits the settle delay with the
    state [false]; it finally propagates [false] and completes with the
    state [false].  (Each stage is resumed from the world the one before
    left, that is, nothing else runs in between.) *)
Theorem setStateOn_pulse
  (this : nat) (c : PlatformSwitchAccessory) (sw : SwitchConfig) (w : World) :
  controllers w !! this = Some c ->
  context_switch (accessory c) = Some sw ->
  exists w1 k1 w2 k2 w3 k3 w4,
    setStateOn this w = Sleeping w1 300 k1
    /\ stateOf w1 this = Some true /\ host w1 = host w
    /\ k1 w1 = Sleeping w2 1500 k2
    /\ stateOf w2 this = Some true
    /\ host w2 = host w ++ [propagated c true]
    /\ k2 w2 = Sleeping w3 300 k3
    /\ stateOf w3 this = Some false /\ host w3 = host w2
    /\ k3 w3 = Returned w4 tt
    /\ stateOf w4 this = Some false
    /\ host w4 = host w ++ [propagated c true; propagated c false]
    /\ uninterrupted (setStateOn this w) = (w4, inl tt).
Proof.
  intros Hc Hsw.
  set (c1 := {| accessory := accessory c; states_On := true |}).
  set (w1 := afterSetOn this c sw true w).
  set (w2 := with_host (host w1 ++ [propagated c1 true]) w1).
  set (w3 := afterSetOn this c1 sw false w2).
  set (c3 := {| accessory := accessory c; states_On := false |}).
  set (w4 := with_host (host w3 ++ [propagated c3 false]) w3).
  assert (Hc1 : controllers w1 !! this = Some c1)
    by apply (afterSetOn_lookup _ _ sw _ _ Hc).
  assert (Hc2 : controllers w2 !! this = Some c1) by exact Hc1.
  assert (Hc3 : controllers w3 !! this = Some c3)
    by apply (afterSetOn_lookup _ _ sw _ _ Hc2).
  pose (k3 := fun w' : World =>
    andThen (Returned w' tt) (fun _ : unit => propagateOn this)).
  pose (k2 := fun w' : World =>
    andThen (Returned w' tt)
      (fun _ : unit => bind (setOn this false) (fun _ => propagateOn this))).
  pose (k1 := fun w' : World =>
    andThen (propagateOn this w') (fun _ =>
      bind (sleep 1500) (fun _ =>
        bind (setOn this false) (fun _ => propagateOn this)))).
  assert (Hrun : setStateOn this w = Sleeping w1 300 k1).
  { unfold setStateOn, bind at 1. by rewrite (setOn_run _ _ _ _ _ Hc Hsw). }
  assert (Hk1 : k1 w1 = Sleeping w2 1500 k2).
  { unfold k1. by rewrite (propagateOn_run _ _ _ Hc1). }
  assert (Hk2 : k2 w2 = Sleeping w3 300 k3).
  { unfold k2. cbn [andThen]. unfold bind.
    by rewrite (setOn_run _ _ _ _ _ Hc2 Hsw). }
  assert (Hk3 : k3 w3 = Returned w4 tt).
  { unfold k3. cbn [andThen]. by rewrite (propagateOn_run _ _ _ Hc3). }
  exists w1, k1, w2, k2, w3, k3, w4.
  split; [exact Hrun|].
  split; [by apply stateOf_afterSetOn|]. split; [done|].
  split; [exact Hk1|].
  split; [unfold stateOf; by rewrite Hc2|]. split; [done|].
  split; [exact Hk2|].
  split; [by apply stateOf_afterSetOn|]. split; [done|].
  split; [exact Hk3|].
  split.
  { change (stateOf w3 this = Some false). by apply stateOf_afterSetOn. }
  split; [cbn; by rewrite <- app_assoc|].
  rewrite Hrun.
  change (uninterrupted (k1 w1) = (w4, inl tt)). rewrite Hk1.
  change (uninterrupted (k2 w2) = (w4, inl tt)). rewrite Hk2.
  change (uninterrupted (k3 w3) = (w4, inl tt)). by rewrite Hk3.
Qed.

Lemma setStateOn_pulse_witness :
  exists w1 k1 w2 k2 w3 k3 w4,
    setStateOn 0 kitchenGarage = Sleeping w1 300 k1
    /\ stateOf w1 0 = Some true /\ host w1 = host kitchenGarage
    /\ k1 w1 = Sleeping w2 1500 k2
    /\ stateOf w2 0 = Some true
    /\ host w2 = host kitchenGarage
                 ++ [propagated {| accessory := cachedRecord "Kitchen";
                                   states_On := false |} true]
    /\ k2 w2 = Sleeping w3 300 k3
    /\ stateOf w3 0 = Some false /\ host w3 = host w2
    /\ k3 w3 = Returned w4 tt
    /\ stateOf w4 0 = Some false
    /\ host w4 = host kitchenGarage
                 ++ [propagated {| accessory := cachedRecord "Kitchen";
                                   states_On := false |} true;
                     propagated {| accessory := cachedRecord "Kitchen";
                                   states_On := false |} false]
    /\ uninterrupted (setStateOn 0 kitchenGarage) = (w4, inl tt).
Proof.
  apply (setStateOn_pulse 0
           {| accessory := cachedRecord "Kitchen"; states_On := false |}
           (cfg "Kitchen") kitchenGarage); reflexivity.
Defined.

(** ** The reconciler *)

Lemma world_eq w w' :
  config_name w = config_name w' -> config_switches w = config_switches w' ->
  generate w = generate w' -> accessories w = accessories w' ->
  instances w = instances w' -> requestServer w = requestServer w' ->
  controllers w = controllers w' -> responses w = responses w' ->
  log w = log w' -> host w = host w' -> w = w'.
Proof. destruct w, w'; cbn; intros; by subst. Qed.

Lemma new_run a sw w :
  context_switch a = Some sw ->
  new a w = Returned (afterNew a (name sw) w) (length (controllers w)).
Proof.
  intros Hsw. unfold new, bind, gets, modify, hostCall, contextSwitchName, ret.
  cbn. rewrite Hsw. cbn. f_equal.
  apply world_eq; cbn; try reflexivity. by rewrite <- !app_assoc.
Qed.

Lemma new_throws a w :
  context_switch a = None ->
  exists w', new a w = Thrown w' TypeError
             /\ instances w' = instances w
             /\ controllers w'
                = controllers w ++ [{| accessory := a; states_On := false |}].
Proof.
  intros Hsw. unfold new, bind, gets, modify, hostCall, contextSwitchName, ret.
  cbn. rewrite Hsw. cbn. eauto.
Qed.

Lemma discoverDevice_restore button a sw w :
  findAccessory (generate w (name button)) (accessories w) = Some a ->
  context_switch a = Some sw ->
  discoverDevice button w = Returned (afterRestore a (name sw) w) tt.
Proof.
  intros Hfind Hsw. unfold discoverDevice, bind at 1 2, gets. cbn [andThen].
  rewrite Hfind. unfold bind, logCall, modify. cbn [andThen].
  by rewrite (new_run _ _ _ Hsw).
Qed.

Lemma discoverDevice_add button w :
  findAccessory (generate w (name button)) (accessories w) = None ->
  discoverDevice button w = Returned (afterAdd button w) tt.
Proof.
  intros Hfind. unfold discoverDevice, bind at 1 2, gets. cbn [andThen].
  rewrite Hfind. cbv zeta. unfold bind, logCall, modify. cbn [andThen].
  by rewrite (new_run _ button).
Qed.

Lemma allCached_ext w w' switches :
  generate w' = generate w -> accessories w' = accessories w ->
  allCached w switches -> allCached w' switches.
Proof. intros Hg Ha. unfold allCached. by rewrite Hg, Ha. Qed.

Lemma registered_app l l' : registered (l ++ l') = registered l ++ registered l'.
Proof. apply flat_map_app. Qed.

Lemma boundTo_later w w1 w2 b i :
  generate w1 = generate w -> accessories w1 = accessories w ->
  (forall j c, controllers w1 !! j = Some c -> controllers w2 !! j = Some c) ->
  boundTo w w1 b i -> boundTo w w2 b i.
Proof.
  intros Hg Ha Hkeep (a & sw & Hf & Hsw & Hc & Hn).
  exists a, sw. split; [done|]. split; [done|]. split; [by apply Hkeep|].
  unfold nameOf. rewrite (Hkeep _ _ Hc). cbn. by rewrite Hsw.
Qed.

Lemma forEach_restore switches : forall w,
  allCached w switches ->
  exists w',
    forEach discoverDevice switches w = Returned w' tt
    /\ accessories w' = accessories w
    /\ generate w' = generate w
    /\ config_switches w' = config_switches w
    /\ registered (host w') = registered (host w)
    /\ instances w'
       = instances w ++ seq (length (controllers w)) (length switches)
    /\ length (controllers w') = (length (controllers w) + length switches)%nat
    /\ (forall j c, controllers w !! j = Some c -> controllers w' !! j = Some c)
    /\ Forall2 (boundTo w w') switches
         (seq (length (controllers w)) (length switches)).
Proof.
  induction switches as [|b switches IH]; intros w Hall.
  - exists w. cbn. rewrite app_nil_r, Nat.add_0_r. repeat split; auto.
  - apply Forall_cons in Hall as [(a & Hfind & [sw Hsw]) Hall].
    set (w1 := afterRestore a (name sw) w).
    assert (Hlen1 : length (controllers w1) = S (length (controllers w))).
    { cbn. rewrite length_app. cbn. lia. }
    assert (Hkeep1 : forall j c,
              controllers w !! j = Some c -> controllers w1 !! j = Some c).
    { intros j c Hj. cbn. by apply lookup_app_l_Some. }
    destruct (IH w1) as (w' & Hrun & Hacc & Hgen & Hcfg & Hreg & Hinst & Hlen
                         & Hkeep & Hbound).
    { by apply (allCached_ext w). }
    exists w'. cbn [forEach]. unfold bind.
    rewrite (discoverDevice_restore _ _ _ _ Hfind Hsw). cbn [andThen].
    fold w1. split; [exact Hrun|].
    split; [by rewrite Hacc|]. split; [by rewrite Hgen|].
    split; [by rewrite Hcfg|].
    split.
    { rewrite Hreg. cbn. by rewrite registered_app, app_nil_r. }
    split.
    { rewrite Hinst, Hlen1. cbn. by rewrite <- app_assoc. }
    split; [rewrite Hlen, Hlen1; cbn; lia|].
    split; [auto|].
    cbn [length seq]. constructor.
    + apply (boundTo_later w w1 w'); [done | done | exact Hkeep |].
      exists a, sw. split; [done|]. split; [done|].
      assert (Hc : controllers w1 !! length (controllers w)
                   = Some {| accessory := a; states_On := false |}).
      { cbn. by apply list_lookup_middle. }
      split; [exact Hc|]. unfold nameOf. rewrite Hc. cbn. by rewrite Hsw.
    + rewrite Hlen1 in Hbound.
      eapply Forall2_impl; [exact Hbound|].
      intros b' i (a' & sw' & Hf' & Hsw' & Hc' & Hn').
      exists a', sw'. by repeat split.
Qed.

Lemma discoverDevices_restore w switches :
  config_switches w = Some switches ->
  discoverDevices w = forEach discoverDevice switches w.
Proof. intros Hcfg. unfold discoverDevices, bind, gets. cbn. by rewrite Hcfg. Qed.







(** The inner conditions of the theorem hold of the sample: the Live
    Controller Set is empty before launch, the cached record carries the
    configured name, and the configured names are distinct. *)
Example kitchenRestored_conditions :
  instances kitchenRestored = []
  /\ cachedUnderName kitchenRestored [cfg "Kitchen"]
  /\ List.NoDup (map name [cfg "Kitchen"]).
Proof.
  split; [reflexivity|]. split.
  - constructor; [|constructor]. intros a sw Hf Hsw.
    assert (Ha : a = cachedRecord "Kitchen").
    { vm_compute in Hf. by injection Hf as <-. }
    subst a. by injection Hsw as <-.
  - constructor; [intros []|constructor].
Qed.


(** ** The endpoint *)

Lemma updateResponse_last l r f w :
  responses w = l ++ [r] ->
  updateResponse (length l) f w
  = Returned (with_responses (l ++ [f r]) w) tt.
Proof.
  intros Hr. unfold updateResponse. rewrite Hr.
  rewrite list_lookup_middle by done.
  rewrite insert_app_r_alt by done. by rewrite Nat.sub_diag.
Qed.

Lemma respond_last l code w :
  responses w = l ++ [openResponse] ->
  bind (writeHead (length l) code) (fun _ => end_ (length l)) w
  = Returned (with_responses (l ++ [emptyResponse code]) w) tt.
Proof.
  intros Hr. unfold bind, writeHead, end_.
  rewrite (updateResponse_last l openResponse) by done. cbn [andThen].
  by rewrite (updateResponse_last l _) by done.
Qed.

Lemma setHeaders_last l (k : Async unit) w :
  responses w = l ++ [freshResponse] ->
  bind (setHeader (length l) (js "Access-Control-Allow-Origin") (js "*"))
    (fun _ =>
     bind (setHeader (length l) (js "Access-Control-Allow-Methods")
             (js "GET, POST, OPTIONS, PUT, PATCH, DELETE"))
       (fun _ =>
        bind (setHeader (length l) (js "Access-Control-Allow-Headers")
                (js "X-Requested-With,content-type"))
          (fun _ =>
           bind (setHeader (length l) (js "Access-Control-Allow-Credentials")
                   (js "true"))
             (fun _ => k)))) w
  = k (with_responses (l ++ [openResponse]) w).
Proof.
  intros Hr. unfold bind, setHeader.
  rewrite (updateResponse_last l freshResponse) by done. cbn [andThen].
  rewrite (updateResponse_last l _) by done. cbn [andThen].
  rewrite (updateResponse_last l _) by done. cbn [andThen].
  rewrite (updateResponse_last l _) by done. cbn [andThen].
  reflexivity.
Qed.

Lemma emitRequest_listener req w :
  emitRequest req w
  = andThen
      (requestListener req (length (responses w))
         (with_responses (responses w ++ [freshResponse]) w))
      (fun _ => ret (length (responses w))).
Proof. reflexivity. Qed.

Lemma requestListener_options req l w :
  responses w = l ++ [freshResponse] ->
  method req = js "OPTIONS" ->
  requestListener req (length l) w
  = Returned (with_responses (l ++ [emptyResponse 200]) w) tt.
Proof.
  intros Hr Hm. unfold requestListener. rewrite (setHeaders_last l _ w Hr).
  unfold eqb. rewrite bool_decide_eq_true_2 by done.
  by rewrite (respond_last l 200).
Qed.

Lemma requestListener_other req l w :
  responses w = l ++ [freshResponse] ->
  method req <> js "OPTIONS" ->
  requestListener req (length l) w
  = handleRequest req (length l) (with_responses (l ++ [openResponse]) w).
Proof.
  intros Hr Hm. unfold requestListener. rewrite (setHeaders_last l _ w Hr).
  unfold eqb. by rewrite bool_decide_eq_false_2.
Qed.

Lemma getName_run this c sw w :
  controllers w !! this = Some c ->
  context_switch (accessory c) = Some sw ->
  getName this w = Returned w (name sw).
Proof.
  intros Hc Hsw. unfold getName, bind, deref, contextSwitchName.
  rewrite Hc. cbn. by rewrite Hsw.
Qed.

Lemma nameOf_Some w i n :
  nameOf w i = Some n ->
  exists c sw, controllers w !! i = Some c
               /\ context_switch (accessory c) = Some sw /\ name sw = n.
Proof.
  unfold nameOf. destruct (controllers w !! i) as [c|]; [|done].
  destruct (context_switch (accessory c)) as [sw|] eqn:Hsw; cbn; [|done].
  intros [= <-]. by exists c, sw.
Qed.

Lemma find_run target l w :
  Forall (fun i => is_Some (nameOf w i)) l ->
  find target l w
  = Returned w (List.find (fun i => bool_decide (nameOf w i = Some target)) l).
Proof.
  induction 1 as [|i l [n Hn] Hl IH]; [done|].
  destruct (nameOf_Some _ _ _ Hn) as (c & sw & Hc & Hsw & <-).
  cbn [find List.find]. unfold bind.
  rewrite (getName_run _ _ _ _ Hc Hsw). cbn [andThen]. rewrite Hn.
  unfold eqb. destruct (decide (name sw = target)) as [->|Hne].
  - by rewrite !bool_decide_eq_true_2.
  - rewrite !bool_decide_eq_false_2 by congruence. exact IH.
Qed.

Lemma handleRequest_irrelevant req l w :
  responses w = l ++ [openResponse] ->
  urlIncludesToggle req = false ->
  handleRequest req (length l) w
  = Returned (with_responses (l ++ [emptyResponse 204]) w) tt.
Proof.
  intros Hr Hu. unfold handleRequest. rewrite Hu. unfold bind at 1.
  cbn [ret andThen]. by apply respond_last.
Qed.

Lemma handleRequest_malformed req res w :
  urlIncludesToggle req = true ->
  decodeURIComponent (nameRawOf (queryOf req)) = None ->
  handleRequest req res w = Thrown w URIError.
Proof. intros Hu Hd. unfold handleRequest. rewrite Hu. cbv zeta. by rewrite Hd. Qed.

Lemma handleRequest_unknown req l target w :
  responses w = l ++ [openResponse] ->
  wellFormed w ->
  urlIncludesToggle req = true ->
  decodeURIComponent (nameRawOf (queryOf req)) = Some target ->
  firstNamed w target = None ->
  handleRequest req (length l) w
  = Returned
      (with_responses (l ++ [emptyResponse 204])
         (with_log (log w ++ [notFoundEntry target]) w)) tt.
Proof.
  intros Hr Hwf Hu Hd Hnone. unfold handleRequest. rewrite Hu. cbv zeta.
  rewrite Hd. unfold bind at 1 2 3, gets. cbn [andThen].
  rewrite (find_run _ _ _ Hwf). cbn [andThen].
  fold (firstNamed w target). rewrite Hnone.
  unfold logCall, modify. cbn [andThen].
  by rewrite (respond_last l 204).
Qed.

Lemma handleRequest_toggle req l target i c sw w :
  responses w = l ++ [openResponse] ->
  wellFormed w ->
  urlIncludesToggle req = true ->
  decodeURIComponent (nameRawOf (queryOf req)) = Some target ->
  firstNamed w target = Some i ->
  controllers w !! i = Some c ->
  context_switch (accessory c) = Some sw ->
  exists k,
    handleRequest req (length l) w
    = Sleeping (afterSetOn i c sw (negb (states_On c)) w) 300 k
    /\ forall w',
        responses w' = l ++ [openResponse] ->
        controllers w' !! i
        = Some {| accessory := accessory c;
                  states_On := negb (states_On c) |} ->
        k w' = Returned
                 (with_responses (l ++ [emptyResponse 204])
                    (with_host
                       (host w' ++ [propagated c (negb (states_On c))]) w'))
                 tt.
Proof.
  intros Hr Hwf Hu Hd Hsome Hc Hsw. unfold handleRequest. rewrite Hu. cbv zeta.
  rewrite Hd. unfold bind at 1 2 3, gets. cbn [andThen].
  rewrite (find_run _ _ _ Hwf). cbn [andThen].
  fold (firstNamed w target). rewrite Hsome.
  rewrite (toggleState_run _ _ _ _ Hc Hsw). cbn [andThen].
  eexists. split; [reflexivity|].
  intros w' Hr' Hc'. cbn beta.
  rewrite (propagateOn_run _ _ _ Hc'). cbn [andThen].
  by rewrite (respond_last l 204).
Qed.

Lemma find_first {A} (f : A -> bool) l x :
  List.find f l = Some x ->
  f x = true
  /\ exists pre post, l = pre ++ x :: post /\ Forall (fun y => f y = false) pre.
Proof.
  induction l as [|y l IH]; [done|]. cbn.
  destruct (f y) eqn:Hy.
  - intros [= ->]. split; [done|]. by exists [], l.
  - intros Hx. destruct (IH Hx) as (Hfx & pre & post & -> & Hpre).
    split; [done|]. exists (y :: pre), post. split; [done|]. by constructor.
Qed.

Lemma find_nobody {A} (f : A -> bool) l :
  Forall (fun y => f y = false) l -> List.find f l = None.
Proof. induction 1 as [|y l Hy _ IH]; [done|]. cbn. by rewrite Hy. Qed.

Lemma firstNamed_nobody w target :
  Forall (fun i => nameOf w i <> Some target) (instances w) ->
  firstNamed w target = None.
Proof.
  intros H. apply find_nobody. eapply Forall_impl; [exact H|].
  intros i Hi. by apply bool_decide_eq_false_2.
Qed.

Lemma split_no_separator sep s : ~ In sep s -> split sep s = [s].
Proof.
  induction s as [|c s IH]; [done|]. intros Hin. cbn.
  destruct (N.eqb_spec c sep) as [->|Hne].
  - exfalso. apply Hin. by left.
  - rewrite IH; [done|]. intros H. apply Hin. by right.
Qed.

Lemma split_at_separator sep s t :
  ~ In sep s -> split sep (s ++ sep :: t) = s :: split sep t.
Proof.
  induction s as [|c s IH]; intros Hin; cbn.
  - by rewrite N.eqb_refl.
  - destruct (N.eqb_spec c sep) as [->|Hne].
    + exfalso. apply Hin. by left.
    + rewrite IH; [done|]. intros H. apply Hin. by right.
Qed.

Lemma queryOf_none req u :
  url req = Some u -> ~ In QUESTION u -> queryOf req = None.
Proof.
  intros Hu Hin. unfold queryOf. rewrite Hu. destruct u as [|c u]; [done|].
  by rewrite split_no_separator.
Qed.

Lemma queryOf_canonical req path v :
  url req = Some (path ++ js "?name=" ++ v) ->
  ~ In QUESTION path -> ~ In QUESTION v ->
  queryOf req = Some (js "name=" ++ v).
Proof.
  intros Hu Hp Hv. unfold queryOf. rewrite Hu.
  change (js "?name=") with (QUESTION :: js "name=").
  assert (Hs : split QUESTION (path ++ (QUESTION :: js "name=") ++ v) !! 1%nat
               = Some (js "name=" ++ v)).
  { cbn [app]. rewrite split_at_separator by done.
    rewrite split_no_separator; [done|].
    intros [H|H]%in_app_or; [|done].
    vm_compute in H. intuition discriminate. }
  destruct (path ++ (QUESTION :: js "name=") ++ v) as [|c u] eqn:Hcat.
  - by destruct path.
  - exact Hs.
Qed.

Lemma nameRaw_canonical req path v :
  url req = Some (path ++ js "?name=" ++ v) ->
  ~ In QUESTION path -> ~ In QUESTION v ->
  nameRawOf (queryOf req) = v.
Proof.
  intros Hu Hp Hv. by rewrite (queryOf_canonical req path v).
Qed.

(** [C8] Every OPTIONS request, whatever its URL (none, or one that
    contains /toggle), is answered at once with status 200, no body and
    the four CORS headers; nothing else in the world changes: no controller
    is looked up or toggled, nothing is logged, the host is not called. *)
Theorem preflight_answered (w : World) (u : option jsstring) :
  let req := {| method := js "OPTIONS"; url := u |} in
  let res := length (responses w) in
  let w' := with_responses (responses w ++ [emptyResponse 200]) w in
  emitRequest req w = Returned w' res
  /\ responses w' !! res
     = Some {| headers :=
                 [ (js "Access-Control-Allow-Origin", js "*");
                   (js "Access-Control-Allow-Methods",
                    js "GET, POST, OPTIONS, PUT, PATCH, DELETE");
                   (js "Access-Control-Allow-Headers",
                    js "X-Requested-With,content-type");
                   (js "Access-Control-Allow-Credentials", js "true") ];
               statusCode := Some 200%N; body := []; finished := true |}
  /\ controllers w' = controllers w /\ instances w' = instances w
  /\ log w' = log w /\ host w' = host w.
Proof.
  intros req res w'. split.
  - rewrite emitRequest_listener.
    rewrite (requestListener_options req (responses w)); done.
  - split; [|done]. cbn. by apply list_lookup_middle.
Qed.

(** A request that is no preflight and whose name, if it is a toggle
    request, can be percent-decoded is answered with 204 and no body once
    its handler has run to completion. *)
Lemma answered_unless_malformed w req :
  wellFormed w ->
  method req <> js "OPTIONS" ->
  (urlIncludesToggle req = true ->
   is_Some (decodeURIComponent (nameRawOf (queryOf req)))) ->
  let out := uninterrupted (emitRequest req w) in
  out.2 = inl (length (responses w))
  /\ responses out.1 !! length (responses w) = Some (emptyResponse 204).
Proof.
  intros Hwf Hm Hdec out. unfold out. clear out.
  set (w0 := with_responses (responses w ++ [openResponse]) w).
  assert (Hr0 : responses w0 = responses w ++ [openResponse]) by done.
  assert (Hemit : emitRequest req w
                  = andThen (handleRequest req (length (responses w)) w0)
                      (fun _ => ret (length (responses w)))).
  { rewrite emitRequest_listener.
    by rewrite (requestListener_other req (responses w)). }
  rewrite Hemit. clear Hemit.
  destruct (urlIncludesToggle req) eqn:Hu.
  - destruct (Hdec eq_refl) as [target Htarget].
    destruct (firstNamed w target) as [i|] eqn:Hfirst.
    + destruct (find_first _ _ _ Hfirst) as (Hn & pre & post & Hinst & _).
      apply bool_decide_eq_true_1 in Hn.
      destruct (nameOf_Some _ _ _ Hn) as (c & sw & Hc & Hsw & _).
      destruct (handleRequest_toggle req (responses w) target i c sw w0
                  Hr0 Hwf Hu Htarget Hfirst Hc Hsw) as (k & Hk & Hk').
      rewrite Hk. cbn [andThen uninterrupted].
      rewrite Hk'; [| done | by apply (afterSetOn_lookup _ _ sw)].
      cbn. split; [done|]. by apply list_lookup_middle.
    + rewrite (handleRequest_unknown req (responses w) target w0) by done.
      cbn. split; [done|]. by apply list_lookup_middle.
  - rewrite (handleRequest_irrelevant req (responses w) w0) by done.
    cbn. split; [done|]. by apply list_lookup_middle.
Qed.

(** [C7] The request [GET /toggle?name=%] is no preflight, yet it gets no
    response: [decodeURIComponent] throws a URIError on the lone [%], the
    promise of [handleRequest] is rejected before [writeHead(204)], and the
    response object stays as the listener left it, with the CORS headers,
    no status and not ended. *)
Theorem malformed_escape_gets_no_response :
  let req := GET "/toggle?name=%" in
  let res := length (responses kitchenGarage) in
  let w' := with_responses (responses kitchenGarage ++ [openResponse])
              kitchenGarage in
  method req <> js "OPTIONS"
  /\ emitRequest req kitchenGarage = Thrown w' URIError
  /\ (statusCode <$> responses w' !! res) = Some None
  /\ (finished <$> responses w' !! res) = Some false.
Proof.
  intros req res w'.
  split; [intros H; vm_compute in H; discriminate H|].
  split; [|split]; vm_compute; reflexivity.
Qed.

(** [C2] (amended) For every request that is no preflight and whose URL
    contains /toggle, the handler takes the piece of the URL between its
    first and its second [?], deletes the first occurrence of [name=] from
    that piece, wherever it stands, and percent-decodes what is left; when
    the decoding succeeds and a member of the Live Controller Set has that
    text as its [getName()], the handler, run with nothing interleaved,
    negates the On state of the first such member in the order of the set
    and of no other controller, and answers 204.  When the URL is
    [<path>?name=<v>] with no further [?], the text the handler decodes is
    [<v>] itself, so that the name it looks up is the percent-decoding of
    [<v>]. *)
Theorem toggle_request_routing
  (w : World) (req : IncomingMessage) (target : jsstring) (i : nat) :
  wellFormed w ->
  method req <> js "OPTIONS" ->
  urlIncludesToggle req = true ->
  decodeURIComponent (nameRawOf (queryOf req)) = Some target ->
  firstNamed w target = Some i ->
  let out := uninterrupted (emitRequest req w) in
  getName i w = Returned w target
  /\ (exists pre post,
        instances w = pre ++ i :: post
        /\ Forall (fun j => nameOf w j <> Some target) pre)
  /\ out.2 = inl (length (responses w))
  /\ (exists b, stateOf w i = Some b /\ stateOf out.1 i = Some (negb b))
  /\ (forall j, j <> i -> stateOf out.1 j = stateOf w j)
  /\ responses out.1 !! length (responses w) = Some (emptyResponse 204)
  /\ (forall path v,
        url req = Some (path ++ js "?name=" ++ v) ->
        ~ In QUESTION path -> ~ In QUESTION v ->
        nameRawOf (queryOf req) = v /\ decodeURIComponent v = Some target).
Proof.
  intros Hwf Hm Hu Htarget Hfirst out. unfold out. clear out.
  set (w0 := with_responses (responses w ++ [openResponse]) w).
  assert (Hr0 : responses w0 = responses w ++ [openResponse]) by done.
  assert (Hemit : emitRequest req w
                  = andThen (handleRequest req (length (responses w)) w0)
                      (fun _ => ret (length (responses w)))).
  { rewrite emitRequest_listener.
    by rewrite (requestListener_other req (responses w)). }
  destruct (find_first _ _ _ Hfirst) as (Hn & pre & post & Hinst & Hpre).
  apply bool_decide_eq_true_1 in Hn.
  destruct (nameOf_Some _ _ _ Hn) as (c & sw & Hc & Hsw & Hname).
  destruct (handleRequest_toggle req (responses w) target i c sw w0
              Hr0 Hwf Hu Htarget Hfirst Hc Hsw) as (k & Hk & Hk').
  assert (Hout : uninterrupted (emitRequest req w)
                 = (with_responses (responses w ++ [emptyResponse 204])
                      (with_host
                         (host w ++ [propagated c (negb (states_On c))])
                         (afterSetOn i c sw (negb (states_On c)) w0)),
                    inl (length (responses w)))).
  { rewrite Hemit, Hk. cbn [andThen uninterrupted].
    rewrite Hk'; [done | done | by apply (afterSetOn_lookup _ _ sw)]. }
  rewrite Hout. cbn [fst snd].
  split; [rewrite <- Hname; by apply (getName_run _ c)|].
  split.
  { exists pre, post. split; [done|].
    eapply Forall_impl; [exact Hpre|].
    intros j Hj. by apply bool_decide_eq_false_1 in Hj. }
  split; [done|].
  split.
  { exists (states_On c). split; [unfold stateOf; by rewrite Hc|].
    apply (stateOf_afterSetOn i c sw _ w0 Hc). }
  split.
  { intros j Hj. apply (stateOf_afterSetOn_other i c sw _ w0 j Hj). }
  split; [cbn; by apply list_lookup_middle|].
  intros path v Hurl Hp Hv.
  assert (Hraw : nameRawOf (queryOf req) = v) by by apply (nameRaw_canonical _ path).
  split; [exact Hraw | by rewrite <- Hraw].
Qed.

Lemma wellFormed_kitchenGarage : wellFormed kitchenGarage.
Proof.
  unfold wellFormed.
  assert (Hi : instances kitchenGarage = [0; 1]) by (vm_compute; reflexivity).
  rewrite Hi. constructor; [|constructor; [|constructor]].
  - exists (js "Kitchen"). vm_compute. reflexivity.
  - exists (js "Garage"). vm_compute. reflexivity.
Qed.

Lemma toggle_request_routing_witness :
  let req := GET "/toggle?name=Kitchen" in
  let out := uninterrupted (emitRequest req kitchenGarage) in
  getName 0 kitchenGarage = Returned kitchenGarage (js "Kitchen")
  /\ (exists pre post,
        instances kitchenGarage = pre ++ 0 :: post
        /\ Forall (fun j => nameOf kitchenGarage j <> Some (js "Kitchen")) pre)
  /\ out.2 = inl (length (responses kitchenGarage))
  /\ (exists b, stateOf kitchenGarage 0 = Some b
                /\ stateOf out.1 0 = Some (negb b))
  /\ (forall j, j <> 0 -> stateOf out.1 j = stateOf kitchenGarage j)
  /\ responses out.1 !! length (responses kitchenGarage)
     = Some (emptyResponse 204)
  /\ (forall path v,
        url req = Some (path ++ js "?name=" ++ v) ->
        ~ In QUESTION path -> ~ In QUESTION v ->
        nameRawOf (queryOf req) = v
        /\ decodeURIComponent v = Some (js "Kitchen")).
Proof.
  apply (toggle_request_routing kitchenGarage (GET "/toggle?name=Kitchen")
           (js "Kitchen") 0).
  - exact wellFormed_kitchenGarage.
  - intros H. vm_compute in H. discriminate H.
  - vm_compute. reflexivity.
  - vm_compute. reflexivity.
  - vm_compute. reflexivity.
Defined.

(** With controllers named Kitchen and Garage, both off, the request
    [/toggle?name=Kitchen] turns Kitchen on and leaves Garage off. *)
Example kitchen_only :
  let req := GET "/toggle?name=Kitchen" in
  let out := uninterrupted (emitRequest req kitchenGarage) in
  map (nameOf kitchenGarage) (instances kitchenGarage)
  = [Some (js "Kitchen"); Some (js "Garage")]
  /\ map (stateOf kitchenGarage) (instances kitchenGarage)
     = [Some false; Some false]
  /\ map (stateOf out.1) (instances out.1) = [Some true; Some false].
Proof. vm_compute. done. Qed.

(** The name is decoded before it is looked up: the controller named
    Front Door is toggled by [/toggle?name=Front%20Door]. *)
Example encoded_name_routes :
  let req := GET "/toggle?name=Front%20Door" in
  let out := uninterrupted (emitRequest req frontDoor) in
  nameRawOf (queryOf req) = js "Front%20Door"
  /\ decodeURIComponent (nameRawOf (queryOf req)) = Some (js "Front Door")
  /\ map (nameOf frontDoor) (instances frontDoor) = [Some (js "Front Door")]
  /\ map (stateOf frontDoor) (instances frontDoor) = [Some false]
  /\ map (stateOf out.1) (instances out.1) = [Some true].
Proof. vm_compute. done. Qed.

(** [C2] (as stated) With controllers named Kitchen and Garage, the request
    [/toggle?name=Kitchen&x=1] has [Kitchen] as the value of its query-string
    key [name], and Kitchen is the first controller of that name; but the
    handler looks up the text [Kitchen&x=1], finds no controller, and
    leaves Kitchen off. *)
Lemma name_parameter_not_extracted :
  ~ routesByNameParameter kitchenGarage (GET "/toggle?name=Kitchen&x=1").
Proof.
  intros H. specialize (H (js "Kitchen") 0%nat false).
  assert (Hgoal : stateOf
            (uninterrupted
               (emitRequest (GET "/toggle?name=Kitchen&x=1") kitchenGarage)).1 0
          = Some false) by (vm_compute; reflexivity).
  rewrite Hgoal in H.
  assert (Hfalse : Some false = Some (negb false)); [|discriminate Hfalse].
  apply H; vm_compute; reflexivity.
Qed.

(** [C6] A toggle request that is no preflight and whose looked-up name is
    the name of no member of the Live Controller Set returns at once: the
    only changes to the world are one error entry of the log that holds
    the name, and the response, ended with 204 and no body; every
    controller keeps its On state and the host is not called. *)
Theorem unknown_name_request
  (w : World) (req : IncomingMessage) (target : jsstring) :
  wellFormed w ->
  method req <> js "OPTIONS" ->
  urlIncludesToggle req = true ->
  decodeURIComponent (nameRawOf (queryOf req)) = Some target ->
  Forall (fun i => nameOf w i <> Some target) (instances w) ->
  let w' := with_responses (responses w ++ [emptyResponse 204])
              (with_log
                 (log w ++ [{| level := LError;
                               message := js "Could not find instance for name:";
                               params := [VString target] |}]) w) in
  emitRequest req w = Returned w' (length (responses w))
  /\ controllers w' = controllers w
  /\ (forall i, stateOf w' i = stateOf w i)
  /\ host w' = host w
  /\ responses w' !! length (responses w)
     = Some {| headers := corsHeaders; statusCode := Some 204%N; body := [];
               finished := true |}.
Proof.
  intros Hwf Hm Hu Htarget Hnone w'.
  set (w0 := with_responses (responses w ++ [openResponse]) w).
  split.
  - rewrite emitRequest_listener.
    rewrite (requestListener_other req (responses w)) by done.
    rewrite (handleRequest_unknown req (responses w) target) ;
      [done | done | exact Hwf | done | done |].
    by apply (firstNamed_nobody w).
  - split; [done|]. split; [done|]. split; [done|].
    cbn. by apply list_lookup_middle.
Qed.

Lemma unknown_name_request_witness :
  let req := GET "/toggle?name=Unknown" in
  let w := kitchenGarage in
  let w' := with_responses (responses w ++ [emptyResponse 204])
              (with_log
                 (log w ++ [{| level := LError;
                               message := js "Could not find instance for name:";
                               params := [VString (js "Unknown")] |}]) w) in
  emitRequest req w = Returned w' (length (responses w))
  /\ controllers w' = controllers w
  /\ (forall i, stateOf w' i = stateOf w i)
  /\ host w' = host w
  /\ responses w' !! length (responses w)
     = Some {| headers := corsHeaders; statusCode := Some 204%N; body := [];
               finished := true |}.
Proof.
  apply (unknown_name_request kitchenGarage (GET "/toggle?name=Unknown")
           (js "Unknown")).
  - exact wellFormed_kitchenGarage.
  - intros H. vm_compute in H. discriminate H.
  - vm_compute. reflexivity.
  - vm_compute. reflexivity.
  - assert (Hi : instances kitchenGarage = [0; 1]) by (vm_compute; reflexivity).
    rewrite Hi.
    constructor; [|constructor; [|constructor]];
      intros H; vm_compute in H; discriminate H.
Defined.

(** [C10] For a request whose URL contains /toggle and no [?], the handler
    has no query, so the text it decodes and the name it looks up are the
    empty string; when no member of the Live Controller Set is named by the
    empty string, the handler returns at once, having changed no
    controller, logged one error entry that holds the empty string, and
    ended the response with 204 and no body; so does the endpoint for such
    a request that is no preflight. *)
Theorem toggle_without_query
  (w : World) (req : IncomingMessage) (u : jsstring) :
  url req = Some u ->
  includes (js "/toggle") u = true ->
  ~ In QUESTION u ->
  wellFormed w ->
  Forall (fun i => nameOf w i <> Some []) (instances w) ->
  let res := length (responses w) in
  let w' := with_responses (responses w ++ [emptyResponse 204])
              (with_log
                 (log w ++ [{| level := LError;
                               message := js "Could not find instance for name:";
                               params := [VString []] |}]) w) in
  nameRawOf (queryOf req) = []
  /\ decodeURIComponent (nameRawOf (queryOf req)) = Some []
  /\ handleRequest req res (with_responses (responses w ++ [openResponse]) w)
     = Returned w' tt
  /\ (method req <> js "OPTIONS" -> emitRequest req w = Returned w' res)
  /\ controllers w' = controllers w
  /\ responses w' !! res = Some (emptyResponse 204).
Proof.
  intros Hurl Hinc Hq Hwf Hnone res w'.
  assert (Hraw : nameRawOf (queryOf req) = [])
    by (by rewrite (queryOf_none req u)).
  assert (Hu : urlIncludesToggle req = true)
    by (unfold urlIncludesToggle; by rewrite Hurl).
  assert (Hdec : decodeURIComponent (nameRawOf (queryOf req)) = Some [])
    by (by rewrite Hraw).
  assert (Hh : handleRequest req res
                 (with_responses (responses w ++ [openResponse]) w)
               = Returned w' tt).
  { rewrite (handleRequest_unknown req (responses w) []);
      [done | done | exact Hwf | done | done |].
    by apply (firstNamed_nobody w). }
  split; [done|]. split; [done|]. split; [done|].
  split.
  { intros Hm. rewrite emitRequest_listener.
    rewrite (requestListener_other req (responses w)) by done.
    change (andThen
              (handleRequest req res
                 (with_responses (responses w ++ [openResponse]) w))
              (fun _ => ret res) = Returned w' res).
    by rewrite Hh. }
  split; [done|]. cbn. by apply list_lookup_middle.
Qed.

Lemma toggle_without_query_witness :
  let req := GET "/toggle" in
  let w := kitchenGarage in
  let res := length (responses w) in
  let w' := with_responses (responses w ++ [emptyResponse 204])
              (with_log
                 (log w ++ [{| level := LError;
                               message := js "Could not find instance for name:";
                               params := [VString []] |}]) w) in
  nameRawOf (queryOf req) = []
  /\ decodeURIComponent (nameRawOf (queryOf req)) = Some []
  /\ handleRequest req res (with_responses (responses w ++ [openResponse]) w)
     = Returned w' tt
  /\ (method req <> js "OPTIONS" -> emitRequest req w = Returned w' res)
  /\ controllers w' = controllers w
  /\ responses w' !! res = Some (emptyResponse 204).
Proof.
  apply (toggle_without_query kitchenGarage (GET "/toggle") (js "/toggle")).
  - reflexivity.
  - vm_compute. reflexivity.
  - intros H. vm_compute in H. intuition discriminate.
  - exact wellFormed_kitchenGarage.
  - assert (Hi : instances kitchenGarage = [0; 1]) by (vm_compute; reflexivity).
    rewrite Hi.
    constructor; [|constructor; [|constructor]];
      intros H; vm_compute in H; discriminate H.
Defined.

(** ** Every reachable world is well formed *)

Lemma wellFormed_framed w0 w : framed w0 w -> wellFormed w0 -> wellFormed w.
Proof.
  intros [Hi Hn] Hwf. unfold wellFormed in *. rewrite Hi.
  eapply Forall_impl; [exact Hwf|]. intros i. by rewrite Hn.
Qed.

Lemma wellFormed_grow w0 w c :
  instances w = instances w0 ->
  controllers w = controllers w0 ++ [c] ->
  wellFormed w0 -> wellFormed w.
Proof.
  intros Hi Hc Hwf. unfold wellFormed in *. rewrite Hi.
  eapply Forall_impl; [exact Hwf|]. intros i [n Hn].
  destruct (nameOf_Some _ _ _ Hn) as (c' & sw & Hc' & Hsw & <-).
  exists (name sw). unfold nameOf. rewrite Hc.
  rewrite (lookup_app_l_Some _ _ _ _ Hc'). cbn. by rewrite Hsw.
Qed.

Lemma wellFormed_push w0 w c sw :
  instances w = instances w0 ++ [length (controllers w0)] ->
  controllers w = controllers w0 ++ [c] ->
  context_switch (accessory c) = Some sw ->
  wellFormed w0 -> wellFormed w.
Proof.
  intros Hi Hc Hsw Hwf. unfold wellFormed in *. rewrite Hi.
  apply Forall_app. split.
  - eapply Forall_impl; [exact Hwf|]. intros i [n Hn].
    destruct (nameOf_Some _ _ _ Hn) as (c' & sw' & Hc' & Hsw' & <-).
    exists (name sw'). unfold nameOf. rewrite Hc.
    rewrite (lookup_app_l_Some _ _ _ _ Hc'). cbn. by rewrite Hsw'.
  - apply Forall_singleton. exists (name sw). unfold nameOf. rewrite Hc.
    rewrite list_lookup_middle by done. cbn. by rewrite Hsw.
Qed.

Lemma discoverDevice_wellFormed button w :
  wellFormed w -> Settled wellFormed (discoverDevice button w).
Proof.
  intros Hwf.
  destruct (findAccessory (generate w (name button)) (accessories w))
    as [a|] eqn:Hfind.
  - destruct (context_switch a) as [sw|] eqn:Hsw.
    + rewrite (discoverDevice_restore _ _ _ _ Hfind Hsw). cbn [Settled].
      by apply (wellFormed_push w _ {| accessory := a; states_On := false |} sw).
    + unfold discoverDevice, bind at 1 2, gets. cbn [andThen].
      rewrite Hfind. unfold bind, logCall, modify. cbn [andThen].
      destruct (new_throws a
                  (with_log
                     (log w ++ [{| level := LInfo;
                                   message :=
                                     js "Restoring existing accessory from cache:";
                                   params := [VString (displayName a)] |}]) w)
                  Hsw) as (w' & -> & Hi & Hc).
      cbn [andThen Settled]. by apply (wellFormed_grow w _ _ Hi Hc).
  - rewrite (discoverDevice_add _ _ Hfind). cbn [Settled].
    by apply (wellFormed_push w _
                {| accessory := {| displayName := name button;
                                   UUID := generate w (name button);
                                   context_switch := Some button |};
                   states_On := false |} button).
Qed.

Lemma forEach_wellFormed l : forall w,
  wellFormed w -> Settled wellFormed (forEach discoverDevice l w).
Proof.
  induction l as [|b l IH]; intros w Hwf; [exact Hwf|].
  cbn [forEach]. unfold bind.
  pose proof (discoverDevice_wellFormed b w Hwf) as Hb.
  destruct (discoverDevice b w) as [w' []|w' e|w' ms k]; cbn in *;
    [by apply IH | done | done].
Qed.

Lemma didFinishLaunching_wellFormed w :
  wellFormed w -> Settled wellFormed (didFinishLaunching w).
Proof.
  intros Hwf. unfold didFinishLaunching, createHttpService, discoverDevices.
  unfold bind at 1, modify. cbn [andThen]. unfold bind, gets. cbn [andThen].
  change (config_switches (with_requestServer (Some 18082%N) w))
    with (config_switches w).
  destruct (config_switches w) as [sws|]; [|exact Hwf].
  by apply forEach_wellFormed.
Qed.

Lemma step_wellFormed e s :
  quiet s -> wellFormed (world s) -> wellFormed (world (step e s)).
Proof.
  intros Hq Hwf.
  assert (Hother : e <> DidFinishLaunching -> wellFormed (world (step e s))).
  { intros He. destruct (step_same e s He Hq) as [_ Hf].
    by eapply wellFormed_framed. }
  destruct e; try (apply Hother; discriminate).
  cbn. unfold start.
  pose proof (didFinishLaunching_wellFormed _ Hwf) as H.
  by destruct (didFinishLaunching (world s)).
Qed.

(** Whatever the host and the network do, every member of the Live
    Controller Set stands for a controller whose constructor completed. *)
Lemma reachable_wellFormed cfgName switches gen es :
  wellFormed (world (run es (boot cfgName switches gen))).
Proof.
  assert (H : forall s, quiet s -> wellFormed (world s) ->
                        wellFormed (world (run es s))).
  { induction es as [|e es IH]; intros s Hq Hwf; [exact Hwf|].
    cbn. apply IH; [by apply step_quiet | by apply step_wellFormed]. }
  apply H; [apply boot_quiet | constructor].
Qed.

(** ** Across restarts *)

Lemma forEach_configure l : forall w,
  exists w',
    forEach configureAccessory l w = Returned w' tt
    /\ accessories w' = accessories w ++ l
    /\ instances w' = instances w
    /\ generate w' = generate w
    /\ config_switches w' = config_switches w
    /\ controllers w' = controllers w
    /\ host w' = host w.
Proof.
  induction l as [|a l IH]; intros w.
  - exists w. cbn. by rewrite app_nil_r.
  - destruct (IH (with_accessories (accessories w ++ [a])
                    (with_log
                       (log w ++ [{| level := LInfo;
                                     message := js "Loading accessory from cache:";
                                     params := [VString (displayName a)] |}]) w)))
      as (w' & Hrun & Hacc & Hinst & Hgen & Hcfg & Hctl & Hhost).
    exists w'. split; [exact Hrun|].
    split; [rewrite Hacc; cbn; by rewrite <- app_assoc|]. done.
Qed.

Lemma restarted_fields w :
  accessories (restarted w) = accessories w ++ registered (host w)
  /\ instances (restarted w) = []
  /\ generate (restarted w) = generate w
  /\ config_switches (restarted w) = config_switches w
  /\ controllers (restarted w) = []
  /\ registered (host (restarted w)) = [].
Proof.
  unfold restarted.
  destruct (forEach_configure (accessories w ++ registered (host w))
              (construct (config_name w) (config_switches w) (generate w)))
    as (w' & -> & Hacc & Hinst & Hgen & Hcfg & Hctl & Hhost).
  cbn [uninterrupted fst]. rewrite Hhost. done.
Qed.

Lemma findAccessory_app_l uuid l l' a :
  findAccessory uuid l = Some a -> findAccessory uuid (l ++ l') = Some a.
Proof.
  unfold findAccessory. induction l as [|x l IH]; [done|]. cbn.
  destruct (eqb (UUID x) uuid); [done | exact IH].
Qed.

Lemma findAccessory_app_r uuid l l' :
  findAccessory uuid l = None ->
  findAccessory uuid (l ++ l') = findAccessory uuid l'.
Proof.
  unfold findAccessory. induction l as [|x l IH]; [done|]. cbn.
  destruct (eqb (UUID x) uuid); [done | exact IH].
Qed.

Lemma findAccessory_insert uuid l x l' a :
  findAccessory uuid (l ++ l') = Some a ->
  findAccessory uuid (l ++ x :: l') = Some a
  \/ findAccessory uuid (l ++ x :: l') = Some x.
Proof.
  unfold findAccessory. induction l as [|y l IH]; cbn.
  - destruct (eqb (UUID x) uuid); auto.
  - destruct (eqb (UUID y) uuid); auto.
Qed.

(** A pass that completes has, for every configured switch, either found a
    record with its context in the cache or registered one: the cache
    joined with the new registrations holds a record for each. *)
Lemma forEach_registers switches : forall w w1,
  forEach discoverDevice switches w = Returned w1 tt ->
  generate w1 = generate w
  /\ accessories w1 = accessories w
  /\ config_switches w1 = config_switches w
  /\ exists fresh,
       registered (host w1) = registered (host w) ++ fresh
       /\ Forall (fun a => is_Some (context_switch a)) fresh
       /\ Forall (fun b => exists a,
                    findAccessory (generate w (name b)) (accessories w ++ fresh)
                    = Some a
                    /\ is_Some (context_switch a)) switches.
Proof.
  induction switches as [|b switches IH]; intros w w1 Hrun.
  - injection Hrun as <-. split; [done|]. split; [done|]. split; [done|].
    exists []. by rewrite app_nil_r.
  - cbn [forEach] in Hrun. unfold bind in Hrun.
    destruct (findAccessory (generate w (name b)) (accessories w))
      as [a|] eqn:Hfind.
    + destruct (context_switch a) as [sw|] eqn:Hsw.
      * rewrite (discoverDevice_restore _ _ _ _ Hfind Hsw) in Hrun.
        cbn [andThen] in Hrun.
        destruct (IH _ _ Hrun)
          as (Hgen & Hacc & Hcfg & fresh & Hreg & Hctx & Hall).
        split; [done|]. split; [done|]. split; [done|]. exists fresh.
        split; [rewrite Hreg; cbn; by rewrite registered_app, app_nil_r|].
        split; [done|]. constructor; [|exact Hall].
        exists a. split; [by apply findAccessory_app_l | by eexists].
      * exfalso. revert Hrun.
        unfold discoverDevice, bind at 1 2, gets. cbn [andThen].
        rewrite Hfind. unfold bind, logCall, modify. cbn [andThen].
        destruct (new_throws a
                    (with_log
                       (log w ++ [{| level := LInfo;
                                     message :=
                                       js "Restoring existing accessory from cache:";
                                     params := [VString (displayName a)] |}]) w)
                    Hsw) as (w' & -> & _).
        done.
    + rewrite (discoverDevice_add _ _ Hfind) in Hrun. cbn [andThen] in Hrun.
      destruct (IH _ _ Hrun)
        as (Hgen & Hacc & Hcfg & fresh & Hreg & Hctx & Hall).
      set (acc := {| displayName := name b; UUID := generate w (name b);
                     context_switch := Some b |}) in *.
      split; [done|]. split; [done|]. split; [done|]. exists (acc :: fresh).
      split.
      { rewrite Hreg. cbn. rewrite !registered_app. cbn.
        by rewrite app_nil_r, <- app_assoc. }
      split; [constructor; [by eexists | exact Hctx]|].
      constructor.
      * exists acc. split; [|by eexists].
        rewrite (findAccessory_app_r _ _ _ Hfind). unfold findAccessory. cbn.
        unfold eqb. by rewrite bool_decide_eq_true_2.
      * eapply Forall_impl; [exact Hall|].
        intros b' (a' & Hf' & Hs'). cbn in Hf'.
        destruct (findAccessory_insert _ _ acc _ _ Hf') as [H|H].
        -- exists a'. by split.
        -- exists acc. split; [exact H | by eexists].
Qed.

Lemma populated_cache_pass w switches :
  config_switches w = Some switches ->
  allCached w switches ->
  exists w1,
    discoverDevices w = Returned w1 tt
    /\ accessories w1 = accessories w
    /\ registered (host w1) = registered (host w)
    /\ instances w1
       = instances w ++ seq (length (controllers w)) (length switches).
Proof.
  intros Hcfg Hall.
  destruct (forEach_restore switches w Hall)
    as (w1 & Hrun & Hacc & _ & _ & Hreg & Hinst & _).
  exists w1. by rewrite (discoverDevices_restore w switches Hcfg).
Qed.

(** A process whose reconciliation pass completed leaves the host with a
    record for every configured switch: the pass of the next process
    registers nothing and ends with exactly one controller per configured
    entry. *)
Lemma restart_reconciles w w1 switches :
  config_switches w = Some switches ->
  registered (host w) = [] ->
  discoverDevices w = Returned w1 tt ->
  exists w2,
    discoverDevices (restarted w1) = Returned w2 tt
    /\ registered (host w2) = []
    /\ accessories w2 = accessories w ++ registered (host w1)
    /\ instances w2 = seq 0 (length switches).
Proof.
  intros Hcfg Hfresh Hrun.
  rewrite (discoverDevices_restore w switches Hcfg) in Hrun.
  destruct (forEach_registers _ _ _ Hrun)
    as (Hgen & Hacc & Hcfg1 & fresh & Hreg & _ & Hall).
  rewrite Hfresh in Hreg. cbn in Hreg.
  destruct (restarted_fields w1) as (Racc & Rinst & Rgen & Rcfg & Rctl & Rreg).
  assert (Hcached : allCached (restarted w1) switches).
  { unfold allCached. rewrite Rgen, Racc, Hgen, Hacc, Hreg. exact Hall. }
  destruct (populated_cache_pass (restarted w1) switches)
    as (w2 & Hrun2 & Hacc2 & Hreg2 & Hinst2); [congruence | exact Hcached |].
  exists w2. split; [exact Hrun2|]. split; [congruence|].
  split; [by rewrite Hacc2, Racc, Hacc|].
  by rewrite Hinst2, Rinst, Rctl.
Qed.

(** * Further properties *)

(** ** Frame conditions *)

Lemma keeps_tails {A} R w (o : Outcome A) : Keeps R w o -> Tails R o.
Proof. by destruct 1. Qed.

Lemma keeps_uninterrupted {A} R `{!PreOrder R} w (o : Outcome A) :
  Keeps R w o -> R w (uninterrupted o).1.
Proof.
  induction 1 as [w0 w a Hr|w0 w e Hr|w0 w ms k Hr Hk IH]; cbn; [done|done|].
  etrans; [exact Hr | apply IH].
Qed.

Lemma deref_immediate this w : Immediate (deref this w).
Proof. unfold deref. by destruct (controllers w !! this). Qed.

Lemma updateResponse_immediate res f w : Immediate (updateResponse res f w).
Proof. unfold updateResponse. by destruct (responses w !! res). Qed.

#[local] Hint Resolve deref_immediate updateResponse_immediate : immediate.

Lemma getName_immediate this w : Immediate (getName this w).
Proof. unfold getName. immediate. Qed.

Lemma getOn_immediate this w : Immediate (getOn this w).
Proof. unfold getOn. immediate. Qed.

Lemma assignOn_immediate this v w : Immediate (assignOn this v w).
Proof. unfold assignOn. immediate. Qed.

Lemma propagateOn_immediate this w : Immediate (propagateOn this w).
Proof. unfold propagateOn. immediate. Qed.

#[local] Hint Resolve getName_immediate getOn_immediate assignOn_immediate
  propagateOn_immediate : immediate.

Lemma find_immediate target l w : Immediate (find target l w).
Proof.
  revert w. induction l as [|i l IH]; intros w; cbn [find]; [exact I|].
  apply immediate_bind; [intros; apply getName_immediate|].
  intros n w'. destruct (eqb n target); [exact I | apply IH].
Qed.

#[local] Hint Resolve find_immediate : immediate.

Section Frames.

Context (R : World -> World -> Prop) `{!PreOrder R}.
Context (res : nat).

Hypothesis F_log : forall l m ps w, Keeps R w (logCall l m ps w).
Hypothesis F_propagate : forall c v w, Keeps R w (hostCall (propagated c v) w).
Hypothesis F_assign : forall this v w, Keeps R w (assignOn this v w).
Hypothesis F_writeHead : forall code w, Keeps R w (writeHead res code w).
Hypothesis F_end : forall w, Keeps R w (end_ res w).

Lemma tails_andThen {A B} (o : Outcome A) (f : A -> Async B) :
  Tails R o -> (forall a w, Keeps R w (f a w)) -> Tails R (andThen o f).
Proof.
  destruct o as [w a|w e|w ms k]; cbn; intros Ho Hf.
  - eapply keeps_tails, Hf.
  - exact I.
  - intros w'. by apply keeps_andThen.
Qed.

Lemma tails_immediate {A B} (o : Outcome A) (f : A -> Async B) :
  Immediate o -> (forall a w, Tails R (f a w)) -> Tails R (andThen o f).
Proof. destruct o as [w a|w e|w ms k]; cbn; intros Ho Hf; [apply Hf|done|done]. Qed.

Lemma frame_deref this w : Keeps R w (deref this w).
Proof. unfold deref. destruct (controllers w !! this); by constructor. Qed.

Lemma frame_contextSwitchName a w : Keeps R w (contextSwitchName a w).
Proof. unfold contextSwitchName. destruct (context_switch a); by constructor. Qed.

Lemma frame_getName this w : Keeps R w (getName this w).
Proof.
  unfold getName. apply keeps_bind; [done | apply frame_deref |].
  intros; apply frame_contextSwitchName.
Qed.

Lemma frame_getOn this w : Keeps R w (getOn this w).
Proof.
  unfold getOn. apply keeps_bind; [done | apply frame_deref |].
  intros; by constructor.
Qed.

Lemma frame_propagateOn this w : Keeps R w (propagateOn this w).
Proof.
  unfold propagateOn. apply keeps_bind; [done | apply frame_deref |].
  intros c w'. apply (F_propagate c (states_On c)).
Qed.

Lemma frame_find target l w : Keeps R w (find target l w).
Proof.
  revert w. induction l as [|i l IH]; intros w; cbn [find]; [by constructor|].
  apply keeps_bind; [done | apply frame_getName |].
  intros n w'. destruct (eqb n target); [by constructor | apply IH].
Qed.

Lemma frame_setOn this v w : Keeps R w (setOn this v w).
Proof.
  unfold setOn.
  apply keeps_bind; [done | apply frame_deref | intros c w1].
  apply keeps_bind; [done | intros; apply frame_contextSwitchName | intros n w2].
  apply keeps_bind; [done | intros; apply F_log | intros _ w3].
  apply keeps_bind; [done | intros; apply F_assign | intros _ w4].
  by apply keeps_sleep.
Qed.

Lemma frame_toggleState this w : Keeps R w (toggleState this w).
Proof.
  unfold toggleState.
  apply keeps_bind; [done | apply frame_getOn | intros isOn w1].
  apply keeps_bind; [done | intros; apply frame_setOn | intros _ w2].
  apply frame_propagateOn.
Qed.

Lemma frame_respond code w :
  Keeps R w (bind (writeHead res code) (fun _ => end_ res) w).
Proof. apply keeps_bind; [done | apply F_writeHead | intros; apply F_end]. Qed.

Lemma frame_handleRequest req w : Keeps R w (handleRequest req res w).
Proof.
  unfold handleRequest.
  apply keeps_bind; [done | | intros; apply frame_respond].
  intros w0. destruct (urlIncludesToggle req); [|by constructor].
  cbv zeta. destruct (decodeURIComponent _) as [target|]; [|by constructor].
  apply keeps_bind; [done | intros; by constructor | intros l w1].
  apply keeps_bind; [done | intros; apply frame_find | intros [i|] w2].
  - apply frame_toggleState.
  - apply F_log.
Qed.

Lemma tails_setOn this v w : Tails R (setOn this v w).
Proof.
  unfold setOn, bind.
  apply tails_immediate; [apply deref_immediate | intros c w1].
  apply tails_immediate; [apply contextSwitchName_immediate | intros n w2].
  apply tails_immediate; [exact I | intros _ w3].
  apply tails_immediate; [apply assignOn_immediate | intros _ w4].
  intros w'. by constructor.
Qed.

Lemma tails_toggleState this w : Tails R (toggleState this w).
Proof.
  unfold toggleState, bind.
  apply tails_immediate; [apply getOn_immediate | intros isOn w1].
  apply tails_andThen; [apply tails_setOn | intros; apply frame_propagateOn].
Qed.

Lemma tails_handleRequest req w : Tails R (handleRequest req res w).
Proof.
  unfold handleRequest, bind at 1.
  apply tails_andThen; [|intros; apply frame_respond].
  destruct (urlIncludesToggle req); [|exact I].
  cbv zeta. destruct (decodeURIComponent _) as [target|]; [|exact I].
  unfold bind.
  apply tails_immediate; [exact I | intros l w1].
  apply tails_immediate; [apply find_immediate | intros [i|] w2].
  - apply tails_toggleState.
  - exact I.
Qed.

End Frames.

(** *** The event loop, for any relation *)

Section QuietLoop.

Context (R : World -> World -> Prop) `{!PreOrder R}.

Lemma settle_Quiet_keeps o s :
  Keeps R (world s) o -> Quiet R s ->
  Quiet R (settle o s) /\ R (world s) (world (settle o s)).
Proof.
  intros Ho Hq. inversion Ho; subst; cbn; split; auto.
  apply Forall_app; split; [exact Hq|]. by apply Forall_singleton.
Qed.

Lemma settle_Quiet_tails o s : Tails R o -> Quiet R s -> Quiet R (settle o s).
Proof.
  intros Ho Hq. destruct o as [w a|w e|w ms k]; cbn; [exact Hq | exact Hq |].
  apply Forall_app; split; [exact Hq|]. by apply Forall_singleton.
Qed.

Lemma fire_Quiet i s :
  Quiet R s -> Quiet R (fire i s) /\ R (world s) (world (fire i s)).
Proof.
  intros Hq. unfold fire. destruct (pending s !! i) as [k|] eqn:Hk; [|done].
  apply (settle_Quiet_keeps (k (world s))
           {| world := world s; pending := delete i (pending s);
              uncaught := uncaught s |}); cbn.
  - exact (Forall_lookup_1 _ (pending s) i k Hq Hk (world s)).
  - unfold Quiet. cbn. by apply Forall_delete.
Qed.

End QuietLoop.

Lemma immediate_tails {A} R (o : Outcome A) : Immediate o -> Tails R o.
Proof. by destruct o. Qed.

Section FramesEverywhere.

Context (R : World -> World -> Prop) `{!PreOrder R}.

Hypothesis F_propagate : forall c v w, Keeps R w (hostCall (propagated c v) w).
Hypothesis F_writeHead : forall res code w, Keeps R w (writeHead res code w).
Hypothesis F_end : forall res w, Keeps R w (end_ res w).

Lemma tails_requestListener req res w : Tails R (requestListener req res w).
Proof.
  unfold requestListener, setHeader, bind.
  do 4 (apply tails_immediate; [apply updateResponse_immediate | intros _ ?]).
  destruct (eqb (method req) (js "OPTIONS")).
  - apply immediate_tails. unfold writeHead, end_.
    apply immediate_andThen; [apply updateResponse_immediate|].
    intros; apply updateResponse_immediate.
  - by apply tails_handleRequest.
Qed.

Lemma tails_emitRequest req w : Tails R (emitRequest req w).
Proof.
  rewrite emitRequest_listener.
  apply tails_andThen; [done | apply tails_requestListener |].
  intros; by constructor.
Qed.

Lemma step_Quiet e s : Quiet R s -> Quiet R (step e s).
Proof.
  intros Hq. destruct e; cbn [step]; unfold start.
  - apply settle_Quiet_tails; [|done]. by apply immediate_tails.
  - apply settle_Quiet_tails; [|done].
    apply immediate_tails, didFinishLaunching_immediate.
  - apply settle_Quiet_tails; [|done]. by apply immediate_tails.
  - destruct (requestServer (world s)); [|done].
    apply settle_Quiet_tails; [|done].
    apply tails_andThen; [done | apply tails_emitRequest |].
    intros; by constructor.
  - by apply fire_Quiet.
  - destruct (boundOnSet _ _); [|done].
    apply settle_Quiet_tails; [|done]. by apply tails_setOn.
  - destruct (boundOnGet _ _); [|done].
    apply settle_Quiet_tails; [|done].
    apply immediate_tails, immediate_bind; [intros; apply getOn_immediate | done].
Qed.

End FramesEverywhere.

(** *** The relations the continuations keep *)

#[local] Instance sameStates_preorder : PreOrder sameStates.
Proof.
  split; [by intros w i|]. intros a b c Hab Hbc i. by rewrite Hbc, Hab.
Qed.

#[local] Instance sameServer_preorder : PreOrder sameServer.
Proof.
  split; [by intros w|]. intros a b c Hab Hbc. unfold sameServer in *. congruence.
Qed.

Lemma updateResponse_states res f w : Keeps sameStates w (updateResponse res f w).
Proof. unfold updateResponse. destruct (responses w !! res); by constructor. Qed.

Lemma hostCall_states c w : Keeps sameStates w (hostCall c w).
Proof. by constructor. Qed.

Lemma logCall_states l m ps w : Keeps sameStates w (logCall l m ps w).
Proof. by constructor. Qed.

Lemma updateResponse_server res f w : Keeps sameServer w (updateResponse res f w).
Proof. unfold updateResponse. destruct (responses w !! res); by constructor. Qed.

Lemma hostCall_server c w : Keeps sameServer w (hostCall c w).
Proof. by constructor. Qed.

Lemma step_steady e s : steady s -> steady (step e s).
Proof.
  intros (Hq & Hs & Hv & Hwf). split; [by apply step_quiet|].
  split.
  { apply step_Quiet;
      [ typeclasses eauto
      | intros; apply hostCall_states
      | intros; unfold writeHead; apply updateResponse_states
      | intros; unfold end_; apply updateResponse_states
      | done ]. }
  split; [|by apply step_wellFormed].
  apply step_Quiet;
    [ typeclasses eauto
    | intros; apply hostCall_server
    | intros; unfold writeHead; apply updateResponse_server
    | intros; unfold end_; apply updateResponse_server
    | done ].
Qed.

Lemma run_steady es : forall s, steady s -> steady (run es s).
Proof.
  induction es as [|e es IH]; intros s Hs; [exact Hs|].
  cbn. by apply IH, step_steady.
Qed.

Lemma reachable_steady cfgName switches gen es :
  steady (run es (boot cfgName switches gen)).
Proof. apply run_steady. repeat split; constructor. Qed.

(** ** Toggles compose under every interleaving *)

Lemma find_ext {A} (f g : A -> bool) l :
  (forall x, f x = g x) -> List.find f l = List.find g l.
Proof. intros H. induction l as [|x l IH]; [done|]. cbn. by rewrite H, IH. Qed.

Lemma firstNamed_framed w0 w target :
  framed w0 w -> firstNamed w target = firstNamed w0 target.
Proof.
  intros [Hi Hn]. unfold firstNamed. rewrite Hi.
  apply find_ext. intros i. by rewrite Hn.
Qed.

Lemma timer_steady i s :
  steady s ->
  framed (world s) (world (step (Timer i) s))
  /\ sameStates (world s) (world (step (Timer i) s))
  /\ sameServer (world s) (world (step (Timer i) s)).
Proof.
  intros (Hq & Hs & Hv & _). cbn [step].
  split; [by apply fire_same|].
  split; [exact (proj2 (fire_Quiet sameStates i s Hs))
         | exact (proj2 (fire_Quiet sameServer i s Hv))].
Qed.

Lemma toggle_arrives w req target i b :
  wellFormed w ->
  togglesFor target req ->
  firstNamed w target = Some i ->
  stateOf w i = Some b ->
  exists w1 k,
    andThen (emitRequest req w) (fun _ => ret tt) = Sleeping w1 300 k
    /\ stateOf w1 i = Some (negb b)
    /\ (forall j, j <> i -> stateOf w1 j = stateOf w j)
    /\ requestServer w1 = requestServer w.
Proof.
  intros Hwf (Hm & Hu & Hd) Hfirst Hb.
  set (w0 := with_responses (responses w ++ [openResponse]) w).
  destruct (find_first _ _ _ Hfirst) as (Hn & _).
  apply bool_decide_eq_true_1 in Hn.
  destruct (nameOf_Some _ _ _ Hn) as (c & sw & Hc & Hsw & _).
  assert (Hbc : b = states_On c).
  { unfold stateOf in Hb. rewrite Hc in Hb. by injection Hb. }
  destruct (handleRequest_toggle req (responses w) target i c sw w0
              eq_refl Hwf Hu Hd Hfirst Hc Hsw) as (k & Hk & _).
  assert (Hemit : emitRequest req w
                  = andThen (handleRequest req (length (responses w)) w0)
                      (fun _ => ret (length (responses w)))).
  { rewrite emitRequest_listener.
    by rewrite (requestListener_other req (responses w)). }
  rewrite Hemit, Hk. cbn [andThen].
  eexists _, _. split; [reflexivity|]. rewrite Hbc.
  split; [apply (stateOf_afterSetOn i c sw _ w0 Hc)|].
  split; [|done].
  intros j Hj. apply (stateOf_afterSetOn_other i c sw _ w0 j Hj).
Qed.

Lemma toggle_step s req target i b :
  steady s ->
  is_Some (requestServer (world s)) ->
  togglesFor target req ->
  firstNamed (world s) target = Some i ->
  stateOf (world s) i = Some b ->
  stateOf (world (step (Request req) s)) i = Some (negb b)
  /\ (forall j, j <> i ->
       stateOf (world (step (Request req) s)) j = stateOf (world s) j)
  /\ requestServer (world (step (Request req) s)) = requestServer (world s)
  /\ framed (world s) (world (step (Request req) s)).
Proof.
  intros (Hq & Hs & Hv & Hwf) [port Hport] Htog Hfirst Hb.
  destruct (toggle_arrives _ _ _ _ _ Hwf Htog Hfirst Hb)
    as (w1 & k & Hrun & H1 & H2 & H3).
  assert (Hframed : framed (world s) (world (step (Request req) s))).
  { by apply step_same. }
  revert Hframed. cbn [step]. rewrite Hport. unfold start, bind.
  rewrite Hrun. cbn [settle world]. intros Hframed.
  split; [exact H1|]. split; [exact H2|]. split; [congruence | exact Hframed].
Qed.

(** [X8] Toggle requests for one switch never lose an update: from any state
    the program can reach, whatever the order in which such requests
    arrive and their timers fire, the On state of the controller they are
    routed to has been negated once per request, and every other
    controller has kept its state. *)
Theorem toggles_never_lost
  (cfgName : JsValue) (switches : option (list SwitchConfig))
  (gen : jsstring -> jsstring) (before es : list Event)
  (target : jsstring) (i : nat) (b : bool) :
  let s := run before (boot cfgName switches gen) in
  is_Some (requestServer (world s)) ->
  firstNamed (world s) target = Some i ->
  stateOf (world s) i = Some b ->
  Forall (toggleOrTimer target) es ->
  stateOf (world (run es s)) i
  = Some (Nat.iter (length (List.filter isRequest es)) negb b)
  /\ forall j, j <> i -> stateOf (world (run es s)) j = stateOf (world s) j.
Proof.
  intros s Hport Hfirst Hb Hes.
  assert (Hs : steady s) by apply reachable_steady.
  clearbody s. revert s b Hs Hport Hfirst Hb.
  induction Hes as [|e es He Hes IH]; intros s b Hs Hport Hfirst Hb; [done|].
  assert (Hs' : steady (step e s)) by by apply step_steady.
  destruct e as [| | |req|k| |]; try done.
  - destruct (toggle_step s req target i b Hs Hport He Hfirst Hb)
      as (H1 & H2 & H3 & H4).
    destruct (IH (step (Request req) s) (negb b)) as [IH1 IH2]; try done.
    { by rewrite H3. }
    { by rewrite (firstNamed_framed _ _ _ H4). }
    cbn [run fold_left List.filter isRequest length]. fold (run es (step (Request req) s)).
    split.
    + rewrite IH1. f_equal. by rewrite Nat.iter_succ_r.
    + intros j Hj. by rewrite IH2, H2.
  - destruct (timer_steady k s Hs) as (H4 & H1 & H3).
    destruct (IH (step (Timer k) s) b) as [IH1 IH2]; try done.
    { unfold sameServer in H3. by rewrite H3. }
    { by rewrite (firstNamed_framed _ _ _ H4). }
    { by rewrite H1. }
    cbn [run fold_left List.filter isRequest]. fold (run es (step (Timer k) s)).
    split; [exact IH1|].
    intros j Hj. by rewrite IH2, H1.
Qed.

Lemma toggles_never_lost_witness :
  let s := run [DidFinishLaunching]
             (boot VUndefined (Some [cfg "Kitchen"; cfg "Garage"]) mockGenerate) in
  let es := [Request (GET "/toggle?name=Kitchen");
             Request (GET "/toggle?name=Kitchen");
             Timer 1; Request (GET "/toggle?name=Kitchen"); Timer 0; Timer 0] in
  stateOf (world (run es s)) 0
  = Some (Nat.iter (length (List.filter isRequest es)) negb false)
  /\ forall j, j <> 0 -> stateOf (world (run es s)) j = stateOf (world s) j.
Proof.
  assert (Htog : togglesFor (js "Kitchen") (GET "/toggle?name=Kitchen")).
  { split; [intros H; vm_compute in H; discriminate H|].
    split; vm_compute; reflexivity. }
  apply (toggles_never_lost VUndefined (Some [cfg "Kitchen"; cfg "Garage"])
           mockGenerate [DidFinishLaunching]
           [Request (GET "/toggle?name=Kitchen");
            Request (GET "/toggle?name=Kitchen");
            Timer 1; Request (GET "/toggle?name=Kitchen"); Timer 0; Timer 0]
           (js "Kitchen") 0 false).
  - exists 18082%N. vm_compute. reflexivity.
  - vm_compute. reflexivity.
  - vm_compute. reflexivity.
  - repeat (constructor; [first [exact Htog | exact I]|]). constructor.
Defined.

(** [X9] In every state the program can reach, no controller changes its On
    state when a timer fires and a suspended request or set goes on, when
    the host reads a state, when the host restores a record or when the
    server reports that it listens: On states change only at the moment a
    request or a host set arrives (and new controllers appear at launch). *)
Theorem state_changes_only_on_arrival
  (cfgName : JsValue) (switches : option (list SwitchConfig))
  (gen : jsstring -> jsstring) (es : list Event) (j : nat) :
  let s := run es (boot cfgName switches gen) in
  (forall k, stateOf (world (step (Timer k) s)) j = stateOf (world s) j)
  /\ (forall c, stateOf (world (step (HostGet c) s)) j = stateOf (world s) j)
  /\ (forall a,
        stateOf (world (step (ConfigureAccessory a) s)) j = stateOf (world s) j)
  /\ stateOf (world (step Listening s)) j = stateOf (world s) j.
Proof.
  intros s. assert (Hs : steady s) by apply reachable_steady.
  split; [|split; [|split]].
  - intros k. by apply timer_steady.
  - intros c. cbn [step]. destruct (boundOnGet _ _); [|done].
    unfold start, getOn, deref, bind.
    destruct (controllers (world s) !! c); reflexivity.
  - done.
  - done.
Qed.

(** ** Reconciliation without cached records, and with broken ones *)

Lemma forEach_add switches : forall w,
  Forall (fun b => findAccessory (generate w (name b)) (accessories w) = None)
    switches ->
  exists w',
    forEach discoverDevice switches w = Returned w' tt
    /\ accessories w' = accessories w
    /\ generate w' = generate w
    /\ registered (host w') = registered (host w) ++ map (newRecord w) switches
    /\ instances w'
       = instances w ++ seq (length (controllers w)) (length switches)
    /\ controllers w'
       = controllers w
         ++ map (fun b => {| accessory := newRecord w b; states_On := false |})
              switches.
Proof.
  induction switches as [|b switches IH]; intros w Hnone.
  - exists w. cbn. by rewrite !app_nil_r.
  - apply Forall_cons in Hnone as [Hb Hnone].
    destruct (IH (afterAdd b w)) as (w' & Hrun & Hacc & Hgen & Hreg & Hinst & Hctl).
    { exact Hnone. }
    exists w'. cbn [forEach]. unfold bind.
    rewrite (discoverDevice_add _ _ Hb). cbn [andThen].
    split; [exact Hrun|]. split; [exact Hacc|]. split; [exact Hgen|].
    split.
    { rewrite Hreg. cbn. rewrite !registered_app. cbn.
      by rewrite app_nil_r, <- app_assoc. }
    split.
    { rewrite Hinst. cbn. rewrite length_app. cbn.
      rewrite <- app_assoc. cbn. by rewrite Nat.add_1_r. }
    rewrite Hctl. cbn. by rewrite <- app_assoc.
Qed.

(** [X1] When the cache holds no record for any configured switch (as at the
    first launch), a reconciliation pass completes, makes for every
    configured entry, in order and also for a name that occurs twice, a
    record whose display name is the configured name, whose UUID is derived
    from that name and whose context is the entry, registers exactly these
    records with the host, and appends one controller, off, per entry,
    bound to its record; the pass does not add the new records to
    [this.accessories]. *)
Theorem first_pass_registers (w : World) (switches : list SwitchConfig) :
  config_switches w = Some switches ->
  Forall (fun b => findAccessory (generate w (name b)) (accessories w) = None)
    switches ->
  exists w',
    discoverDevices w = Returned w' tt
    /\ registered (host w')
       = registered (host w)
         ++ map (fun b => {| displayName := name b;
                             UUID := generate w (name b);
                             context_switch := Some b |}) switches
    /\ instances w'
       = instances w ++ seq (length (controllers w)) (length switches)
    /\ controllers w'
       = controllers w
         ++ map (fun b => {| accessory := newRecord w b; states_On := false |})
              switches
    /\ accessories w' = accessories w.
Proof.
  intros Hcfg Hnone.
  destruct (forEach_add switches w Hnone)
    as (w' & Hrun & Hacc & _ & Hreg & Hinst & Hctl).
  exists w'. by rewrite (discoverDevices_restore w switches Hcfg).
Qed.

Lemma first_pass_registers_witness :
  let w := construct VUndefined (Some [cfg "Bell"; cfg "Bell"]) mockGenerate in
  exists w',
    discoverDevices w = Returned w' tt
    /\ registered (host w')
       = registered (host w)
         ++ map (fun b => {| displayName := name b;
                             UUID := generate w (name b);
                             context_switch := Some b |})
              [cfg "Bell"; cfg "Bell"]
    /\ instances w'
       = instances w
         ++ seq (length (controllers w)) (length [cfg "Bell"; cfg "Bell"])
    /\ controllers w'
       = controllers w
         ++ map (fun b => {| accessory := newRecord w b; states_On := false |})
              [cfg "Bell"; cfg "Bell"]
    /\ accessories w' = accessories w.
Proof.
  apply (first_pass_registers
           (construct VUndefined (Some [cfg "Bell"; cfg "Bell"]) mockGenerate)
           [cfg "Bell"; cfg "Bell"]).
  - reflexivity.
  - repeat constructor.
Defined.

Lemma forEach_app_returned {A} (body : A -> Async unit) l l' : forall w w1,
  forEach body l w = Returned w1 tt ->
  forEach body (l ++ l') w = forEach body l' w1.
Proof.
  induction l as [|x l IH]; intros w w1 Hrun.
  - by injection Hrun as <-.
  - cbn [forEach app] in *. unfold bind in *.
    destruct (body x w) as [w2 []|w2 e|w2 ms k]; cbn [andThen] in *;
      [by apply IH | done | done].
Qed.

Lemma new_throws_at a w :
  context_switch a = None ->
  new a w
  = Thrown
      (with_host
         (host w
          ++ [ SetCharacteristic (UUID a) AccessoryInformation Manufacturer
                 (VString (js "Default-Manufacturer"));
               SetCharacteristic (UUID a) AccessoryInformation Model
                 (VString (js "Default-Model"));
               SetCharacteristic (UUID a) AccessoryInformation SerialNumber
                 (VString (js "Default-Serial"));
               GetOrAddService (UUID a) Switch ])
         (with_controllers
            (controllers w ++ [{| accessory := a; states_On := false |}]) w))
      TypeError.
Proof.
  intros Hsw. unfold new, bind, gets, modify, hostCall, contextSwitchName, ret.
  cbn. rewrite Hsw. cbn. f_equal.
  apply world_eq; cbn; try reflexivity. by rewrite <- !app_assoc.
Qed.

Lemma forEach_usable l : forall w0 w,
  generate w = generate w0 -> accessories w = accessories w0 ->
  Forall (usable w0) l ->
  exists w1,
    forEach discoverDevice l w = Returned w1 tt
    /\ accessories w1 = accessories w0
    /\ generate w1 = generate w0
    /\ instances w1 = instances w ++ seq (length (controllers w)) (length l)
    /\ registered (host w1)
       = registered (host w) ++ map (newRecord w0) (List.filter (uncached w0) l).
Proof.
  induction l as [|b l IH]; intros w0 w Hgen Hacc Hall.
  - exists w. cbn. by rewrite !app_nil_r.
  - apply Forall_cons in Hall as [Hb Hall].
    unfold usable in Hb. cbn [List.filter]. unfold uncached at 1.
    destruct (findAccessory (generate w0 (name b)) (accessories w0))
      as [a|] eqn:Hfind0.
    + destruct Hb as [sw Hsw].
      assert (Hfind : findAccessory (generate w (name b)) (accessories w)
                      = Some a) by by rewrite Hgen, Hacc.
      destruct (IH w0 (afterRestore a (name sw) w) Hgen Hacc Hall)
        as (w1 & Hrun1 & Ha1 & Hg1 & Hi1 & Hr1).
      exists w1. cbn [forEach]. unfold bind.
      rewrite (discoverDevice_restore _ _ _ _ Hfind Hsw). cbn [andThen].
      split; [exact Hrun1|]. split; [exact Ha1|]. split; [exact Hg1|].
      split.
      * rewrite Hi1. cbn. rewrite length_app. cbn.
        rewrite <- app_assoc. cbn. by rewrite Nat.add_1_r.
      * rewrite Hr1. cbn. by rewrite registered_app, app_nil_r.
    + assert (Hfind : findAccessory (generate w (name b)) (accessories w)
                      = None) by by rewrite Hgen, Hacc.
      destruct (IH w0 (afterAdd b w) Hgen Hacc Hall)
        as (w1 & Hrun1 & Ha1 & Hg1 & Hi1 & Hr1).
      exists w1. cbn [forEach]. unfold bind.
      rewrite (discoverDevice_add _ _ Hfind). cbn [andThen].
      split; [exact Hrun1|]. split; [exact Ha1|]. split; [exact Hg1|].
      split.
      * rewrite Hi1. cbn. rewrite length_app. cbn.
        rewrite <- app_assoc. cbn. by rewrite Nat.add_1_r.
      * rewrite Hr1. cbn. rewrite !registered_app. cbn.
        rewrite app_nil_r, <- app_assoc. cbn.
        unfold newRecord. by rewrite Hgen.
Qed.

(** [X4] The first configured switch whose cached record, the one with its
    UUID, has no [context.switch] stops the reconciliation pass: the
    constructor of its controller throws a TypeError.  By then every entry
    before it, each of which has no cached record or one with its context,
    has got its controller in the Live Controller Set, and its new record
    registered if the cache held none; neither the entry with the broken
    record nor any entry after it gets a member of the set or a
    registration. *)
Theorem pass_stops_at_record_without_context
  (w : World) (before after : list SwitchConfig) (b : SwitchConfig)
  (a : PlatformAccessory) :
  config_switches w = Some (before ++ b :: after) ->
  Forall (usable w) before ->
  findAccessory (generate w (name b)) (accessories w) = Some a ->
  context_switch a = None ->
  exists w',
    discoverDevices w = Thrown w' TypeError
    /\ instances w'
       = instances w ++ seq (length (controllers w)) (length before)
    /\ registered (host w')
       = registered (host w)
         ++ map (newRecord w) (List.filter (uncached w) before)
    /\ accessories w' = accessories w.
Proof.
  intros Hcfg Hall Hfind Hctx.
  destruct (forEach_usable before w w eq_refl eq_refl Hall)
    as (w1 & Hrun & Hacc & Hgen & Hinst & Hreg).
  rewrite (discoverDevices_restore w _ Hcfg).
  rewrite (forEach_app_returned _ _ _ _ _ Hrun).
  cbn [forEach]. unfold bind at 1.
  unfold discoverDevice, bind at 1 2, gets. cbn [andThen].
  rewrite Hgen, Hacc, Hfind. unfold bind, logCall, modify. cbn [andThen].
  rewrite (new_throws_at a _ Hctx). cbn [andThen].
  eexists. split; [reflexivity|]. cbn.
  split; [exact Hinst|]. split; [|exact Hacc].
  rewrite registered_app. cbn. by rewrite app_nil_r.
Qed.

Lemma pass_stops_at_record_without_context_witness :
  let broken := {| displayName := js "Garage";
                   UUID := mockGenerate (js "Garage");
                   context_switch := None |} in
  let w := (uninterrupted
              (configureAccessory broken
                 (construct VUndefined
                    (Some [cfg "Kitchen"; cfg "Garage"; cfg "Porch"])
                    mockGenerate))).1 in
  exists w',
    discoverDevices w = Thrown w' TypeError
    /\ instances w'
       = instances w ++ seq (length (controllers w)) (length [cfg "Kitchen"])
    /\ registered (host w')
       = registered (host w)
         ++ map (newRecord w) (List.filter (uncached w) [cfg "Kitchen"])
    /\ accessories w' = accessories w.
Proof.
  intros broken w.
  apply (pass_stops_at_record_without_context w [cfg "Kitchen"] [cfg "Porch"]
           (cfg "Garage") broken).
  - reflexivity.
  - constructor; [|constructor]. vm_compute. exact I.
  - vm_compute. reflexivity.
  - reflexivity.
Defined.

(** With only a broken Garage record in the cache and Kitchen, Garage and
    Porch configured, the pass registers Kitchen, throws at Garage, and
    leaves Kitchen as the only member of the Live Controller Set. *)
Example broken_garage :
  let broken := {| displayName := js "Garage";
                   UUID := mockGenerate (js "Garage");
                   context_switch := None |} in
  let w := (uninterrupted
              (configureAccessory broken
                 (construct VUndefined
                    (Some [cfg "Kitchen"; cfg "Garage"; cfg "Porch"])
                    mockGenerate))).1 in
  let out := uninterrupted (discoverDevices w) in
  out.2 = inr TypeError
  /\ map (nameOf out.1) (instances out.1) = [Some (js "Kitchen")]
  /\ registered (host out.1) = [newRecord w (cfg "Kitchen")].
Proof. vm_compute. done. Qed.

Lemma forEach_counts switches : forall w w1,
  forEach discoverDevice switches w = Returned w1 tt ->
  instances w1 = instances w ++ seq (length (controllers w)) (length switches)
  /\ length (controllers w1) = length (controllers w) + length switches.
Proof.
  induction switches as [|b switches IH]; intros w w1 Hrun.
  - injection Hrun as <-. cbn. by rewrite app_nil_r, Nat.add_0_r.
  - cbn [forEach] in Hrun. unfold bind in Hrun.
    assert (Hstep : forall w2,
              instances w2 = instances w ++ [length (controllers w)] ->
              length (controllers w2) = S (length (controllers w)) ->
              forEach discoverDevice switches w2 = Returned w1 tt ->
              instances w1
              = instances w ++ seq (length (controllers w)) (length (b :: switches))
              /\ length (controllers w1)
                 = length (controllers w) + length (b :: switches)).
    { intros w2 Hi Hl Hrun2. destruct (IH _ _ Hrun2) as [Hi1 Hl1].
      rewrite Hi1, Hl1, Hi, Hl. cbn. rewrite <- app_assoc. cbn.
      split; [done | lia]. }
    destruct (findAccessory (generate w (name b)) (accessories w))
      as [a|] eqn:Hfind.
    + destruct (context_switch a) as [sw|] eqn:Hsw.
      * rewrite (discoverDevice_restore _ _ _ _ Hfind Hsw) in Hrun.
        apply (Hstep (afterRestore a (name sw) w)); [done | | exact Hrun].
        cbn. rewrite length_app. cbn. lia.
      * exfalso. revert Hrun.
        unfold discoverDevice, bind at 1 2, gets. cbn [andThen].
        rewrite Hfind. unfold bind, logCall, modify. cbn [andThen].
        by rewrite (new_throws_at a _ Hsw).
    + rewrite (discoverDevice_add _ _ Hfind) in Hrun.
      apply (Hstep (afterAdd b w)); [done | | exact Hrun].
      cbn. rewrite length_app. cbn. lia.
Qed.

(** [X3] Whatever the cache holds, a reconciliation pass that completes has
    appended exactly one controller per configured entry, has left
    [this.accessories] as it was, and has registered only records that
    carry their context, so that the cache joined with the new
    registrations holds a record with its context for the UUID of every
    configured switch. *)
Theorem completed_pass (w w1 : World) (switches : list SwitchConfig) :
  config_switches w = Some switches ->
  discoverDevices w = Returned w1 tt ->
  instances w1 = instances w ++ seq (length (controllers w)) (length switches)
  /\ length (controllers w1) = length (controllers w) + length switches
  /\ accessories w1 = accessories w
  /\ exists fresh,
       registered (host w1) = registered (host w) ++ fresh
       /\ Forall (fun a => is_Some (context_switch a)) fresh
       /\ Forall (fun b => exists a,
                    findAccessory (generate w (name b)) (accessories w ++ fresh)
                    = Some a
                    /\ is_Some (context_switch a)) switches.
Proof.
  intros Hcfg Hrun. rewrite (discoverDevices_restore w _ Hcfg) in Hrun.
  destruct (forEach_counts _ _ _ Hrun) as [Hi Hl].
  destruct (forEach_registers _ _ _ Hrun) as (_ & Hacc & _ & Hfresh).
  done.
Qed.

Lemma completed_pass_witness :
  let w := kitchenRestored in
  let w1 := (uninterrupted (discoverDevices w)).1 in
  instances w1 = instances w ++ seq (length (controllers w)) (length [cfg "Kitchen"])
  /\ length (controllers w1) = length (controllers w) + length [cfg "Kitchen"]
  /\ accessories w1 = accessories w
  /\ exists fresh,
       registered (host w1) = registered (host w) ++ fresh
       /\ Forall (fun a => is_Some (context_switch a)) fresh
       /\ Forall (fun b => exists a,
                    findAccessory (generate w (name b)) (accessories w ++ fresh)
                    = Some a
                    /\ is_Some (context_switch a)) [cfg "Kitchen"].
Proof.
  apply (completed_pass kitchenRestored
           (uninterrupted (discoverDevices kitchenRestored)).1 [cfg "Kitchen"]).
  - reflexivity.
  - vm_compute. reflexivity.
Defined.

(** [X2] Identity across restarts: when the pass of a process that had
    registered nothing before completes, the next process, which is given
    back the records restored and registered so far, registers nothing in
    its own pass and ends it with exactly one controller per configured
    entry. *)
Theorem next_process_registers_nothing
  (w w1 : World) (switches : list SwitchConfig) :
  config_switches w = Some switches ->
  registered (host w) = [] ->
  discoverDevices w = Returned w1 tt ->
  exists w2,
    discoverDevices (restarted w1) = Returned w2 tt
    /\ registered (host w2) = []
    /\ accessories w2 = accessories w ++ registered (host w1)
    /\ instances w2 = seq 0 (length switches).
Proof. exact (restart_reconciles w w1 switches). Qed.

Lemma next_process_registers_nothing_witness :
  let w := construct VUndefined (Some [cfg "Kitchen"; cfg "Garage"]) mockGenerate in
  let w1 := (uninterrupted (discoverDevices w)).1 in
  exists w2,
    discoverDevices (restarted w1) = Returned w2 tt
    /\ registered (host w2) = []
    /\ accessories w2 = accessories w ++ registered (host w1)
    /\ instances w2 = seq 0 (length [cfg "Kitchen"; cfg "Garage"]).
Proof.
  apply (next_process_registers_nothing
           (construct VUndefined (Some [cfg "Kitchen"; cfg "Garage"]) mockGenerate)
           (uninterrupted
              (discoverDevices
                 (construct VUndefined (Some [cfg "Kitchen"; cfg "Garage"])
                    mockGenerate))).1
           [cfg "Kitchen"; cfg "Garage"]).
  - reflexivity.
  - reflexivity.
  - vm_compute. reflexivity.
Defined.

(** ** The endpoint, further *)

(** [X5] In every state the program can reach, the lookup of the handler,
    [this.instances.find((i) => i.getName() === name)], returns without
    throwing, whatever the name: every member of the Live Controller Set
    has a name to compare, and the result is the first member of that
    name, or undefined. *)
Theorem lookup_never_throws
  (cfgName : JsValue) (switches : option (list SwitchConfig))
  (gen : jsstring -> jsstring) (es : list Event) (target : jsstring) :
  let w := world (run es (boot cfgName switches gen)) in
  find target (instances w) w = Returned w (firstNamed w target)
  /\ Forall (fun i => exists n, getName i w = Returned w n) (instances w).
Proof.
  intros w.
  assert (Hwf : wellFormed w) by apply reachable_wellFormed.
  split; [by apply find_run|].
  eapply Forall_impl; [exact Hwf|]. intros i [n Hn].
  destruct (nameOf_Some _ _ _ Hn) as (c & sw & Hc & Hsw & <-).
  exists (name sw). by apply (getName_run _ c).
Qed.

(** [X6] Every request that is no preflight is answered with 204 and no body
    once its handler has run to completion, unless its URL contains
    /toggle and the text the handler decodes is no valid percent-encoding:
    a matched toggle, an unknown name and a URL without /toggle all end
    the same way. *)
Theorem non_preflight_answered (w : World) (req : IncomingMessage) :
  wellFormed w ->
  method req <> js "OPTIONS" ->
  (urlIncludesToggle req = true ->
   is_Some (decodeURIComponent (nameRawOf (queryOf req)))) ->
  let out := uninterrupted (emitRequest req w) in
  out.2 = inl (length (responses w))
  /\ responses out.1 !! length (responses w)
     = Some {| headers := corsHeaders; statusCode := Some 204%N; body := [];
               finished := true |}.
Proof. exact (answered_unless_malformed w req). Qed.

Lemma non_preflight_answered_witness :
  let req := {| method := js "POST"; url := Some (js "/status") |} in
  let out := uninterrupted (emitRequest req kitchenGarage) in
  out.2 = inl (length (responses kitchenGarage))
  /\ responses out.1 !! length (responses kitchenGarage)
     = Some {| headers := corsHeaders; statusCode := Some 204%N; body := [];
               finished := true |}.
Proof.
  apply (non_preflight_answered kitchenGarage
           {| method := js "POST"; url := Some (js "/status") |}).
  - exact wellFormed_kitchenGarage.
  - intros H. vm_compute in H. discriminate H.
  - intros H. vm_compute in H. discriminate H.
Defined.

#[local] Instance sameHeaders_preorder j : PreOrder (sameHeaders j).
Proof.
  split; [by intros w|]. intros a b c Hab Hbc. unfold sameHeaders in *. congruence.
Qed.

#[local] Instance sameResponse_preorder j : PreOrder (sameResponse j).
Proof.
  split; [by intros w|]. intros a b c Hab Hbc. unfold sameResponse in *. congruence.
Qed.

Lemma updateResponse_other j res f w :
  res <> j -> Keeps (sameResponse j) w (updateResponse res f w).
Proof.
  intros Hne. unfold updateResponse.
  destruct (responses w !! res); constructor; [|done].
  unfold sameResponse. cbn. by apply list_lookup_insert_ne.
Qed.

Lemma updateResponse_headers j res f w :
  (forall r, headers (f r) = headers r) ->
  Keeps (sameHeaders j) w (updateResponse res f w).
Proof.
  intros Hf. unfold updateResponse.
  destruct (responses w !! res) as [r|] eqn:Hr; constructor; [|done].
  unfold sameHeaders. cbn. destruct (decide (res = j)) as [->|Hne].
  - rewrite list_lookup_insert_eq by (by eapply lookup_lt_Some).
    rewrite Hr. cbn. by rewrite Hf.
  - by rewrite list_lookup_insert_ne.
Qed.

Lemma assignOn_responses R `{!PreOrder R} this v w :
  (forall x w, R w (with_controllers x w)) -> Keeps R w (assignOn this v w).
Proof.
  intros HR. unfold assignOn, bind, deref, modify.
  destruct (controllers w !! this); cbn; constructor; [apply HR | done].
Qed.

Lemma handleRequest_headers j req res w :
  Keeps (sameHeaders j) w (handleRequest req res w).
Proof.
  apply frame_handleRequest; try typeclasses eauto; intros.
  - constructor. red. reflexivity.
  - constructor. red. reflexivity.
  - apply assignOn_responses; [typeclasses eauto|]. intros. red. reflexivity.
  - unfold writeHead. by apply updateResponse_headers.
  - unfold end_. by apply updateResponse_headers.
Qed.

Lemma handleRequest_other j req res w :
  res <> j -> Keeps (sameResponse j) w (handleRequest req res w).
Proof.
  intros Hne. apply frame_handleRequest; try typeclasses eauto; intros.
  - constructor. red. reflexivity.
  - constructor. red. reflexivity.
  - apply assignOn_responses; [typeclasses eauto|]. intros. red. reflexivity.
  - unfold writeHead. by apply updateResponse_other.
  - unfold end_. by apply updateResponse_other.
Qed.

Lemma uninterrupted_andThen_ret {A B} (o : Outcome A) (b : B) :
  (uninterrupted (andThen o (fun _ => ret b))).1 = (uninterrupted o).1.
Proof. induction o as [w a|w e|w ms k IH]; cbn; auto. Qed.

(** [X7] Every response carries the four CORS headers, whatever the request:
    a preflight, a toggle (matched or not), any other URL, and also a
    request whose handler throws.  The listener sets them first, and
    nothing the handler does afterwards, at any of its steps, changes the
    headers of any response. *)
Theorem cors_headers_on_every_response (w : World) (req : IncomingMessage) :
  let res := length (responses w) in
  (headers <$> responses (uninterrupted (emitRequest req w)).1 !! res)
  = Some [ (js "Access-Control-Allow-Origin", js "*");
           (js "Access-Control-Allow-Methods",
            js "GET, POST, OPTIONS, PUT, PATCH, DELETE");
           (js "Access-Control-Allow-Headers",
            js "X-Requested-With,content-type");
           (js "Access-Control-Allow-Credentials", js "true") ]
  /\ forall j res' w', Keeps (sameHeaders j) w' (handleRequest req res' w').
Proof.
  intros res. split; [|intros; apply handleRequest_headers].
  set (w1 := with_responses (responses w ++ [openResponse]) w).
  assert (Hw1 : headers <$> responses w1 !! res = Some corsHeaders).
  { cbn. by rewrite list_lookup_middle. }
  rewrite emitRequest_listener, uninterrupted_andThen_ret.
  destruct (decide (method req = js "OPTIONS")) as [Hm|Hm].
  - rewrite (requestListener_options req (responses w)) by done.
    cbn. by rewrite list_lookup_middle.
  - rewrite (requestListener_other req (responses w)) by done.
    pose proof (keeps_uninterrupted _ _ _ (handleRequest_headers res req res w1))
      as Hkeep.
    unfold sameHeaders in Hkeep. exact (eq_trans Hkeep Hw1).
Qed.

Lemma Keeps_from {A} R `{!PreOrder R} w w0 (o : Outcome A) :
  R w w0 -> Keeps R w0 o -> Keeps R w o.
Proof. intros Hr Ho. destruct Ho; constructor; auto; by etrans. Qed.

Lemma requestListener_other_response j req res w :
  res <> j -> Keeps (sameResponse j) w (requestListener req res w).
Proof.
  intros Hne. unfold requestListener, setHeader.
  do 4 (apply keeps_bind;
        [typeclasses eauto | intros; by apply updateResponse_other | intros _ ?]).
  destruct (eqb (method req) (js "OPTIONS")).
  - unfold writeHead, end_.
    apply keeps_bind; [typeclasses eauto | |]; intros;
      by apply updateResponse_other.
  - by apply handleRequest_other.
Qed.

(** [X12] The handling of a request writes to no response object but its own:
    a response that exists when the request arrives is, each time the
    handler gives control back, as it was when the handler last took
    control, and after the first suspension this holds of every response
    other than the request's own, older or newer. *)
Theorem request_writes_only_its_response
  (w : World) (req : IncomingMessage) (j : nat) :
  j <> length (responses w) ->
  Tails (sameResponse j) (emitRequest req w)
  /\ (j < length (responses w) -> Keeps (sameResponse j) w (emitRequest req w)).
Proof.
  intros Hne.
  assert (Hl : Keeps (sameResponse j)
                 (with_responses (responses w ++ [freshResponse]) w)
                 (requestListener req (length (responses w))
                    (with_responses (responses w ++ [freshResponse]) w))).
  { apply requestListener_other_response. congruence. }
  rewrite emitRequest_listener. split.
  - apply tails_andThen; [typeclasses eauto | by eapply keeps_tails |].
    intros; by constructor.
  - intros Hlt. apply keeps_andThen; [typeclasses eauto | | intros; by constructor].
    eapply Keeps_from; [typeclasses eauto | | exact Hl].
    unfold sameResponse. cbn. by apply lookup_app_l.
Qed.

Lemma request_writes_only_its_response_witness :
  let w := (uninterrupted
              (emitRequest (GET "/toggle?name=Garage") kitchenGarage)).1 in
  Tails (sameResponse 0) (emitRequest (GET "/toggle?name=Kitchen") w)
  /\ (0 < length (responses w) ->
      Keeps (sameResponse 0) w (emitRequest (GET "/toggle?name=Kitchen") w)).
Proof.
  intros w.
  apply (request_writes_only_its_response w (GET "/toggle?name=Kitchen") 0).
  intros H. vm_compute in H. discriminate H.
Defined.

(** *** Names in the URL *)

Lemma DecodeFrom_no_percent s :
  ~ In PERCENT s -> DecodeFrom 0 s = Some s.
Proof.
  induction s as [|c s IH]; [done|]. intros Hin. cbn [DecodeFrom].
  destruct (N.eqb_spec c PERCENT) as [->|Hne].
  - exfalso. apply Hin. by left.
  - rewrite IH; [done|]. intros H. apply Hin. by right.
Qed.

Lemma toggle_request_sleeps w req target i c sw :
  wellFormed w ->
  togglesFor target req ->
  firstNamed w target = Some i ->
  controllers w !! i = Some c ->
  context_switch (accessory c) = Some sw ->
  exists k,
    emitRequest req w
    = Sleeping
        (afterSetOn i c sw (negb (states_On c))
           (with_responses (responses w ++ [openResponse]) w)) 300 k.
Proof.
  intros Hwf (Hm & Hu & Hd) Hfirst Hc Hsw.
  set (w0 := with_responses (responses w ++ [openResponse]) w).
  destruct (handleRequest_toggle req (responses w) target i c sw w0
              eq_refl Hwf Hu Hd Hfirst Hc Hsw) as (k & Hk & _).
  assert (Hemit : emitRequest req w
                  = andThen (handleRequest req (length (responses w)) w0)
                      (fun _ => ret (length (responses w)))).
  { rewrite emitRequest_listener.
    by rewrite (requestListener_other req (responses w)). }
  rewrite Hemit, Hk. cbn [andThen]. by eexists.
Qed.

(** [X10] A switch whose name holds neither [%] nor [?] is toggled by its plain
    name: for a request that is no preflight and whose URL is
    [<path>?name=<n>], with /toggle somewhere in it and no [?] in the
    path, the handler decodes [<n>] to itself and, run to completion,
    negates the first controller named [<n>] and no other, and answers. *)
Theorem plain_name_toggles
  (w : World) (req : IncomingMessage) (path n : jsstring) (i : nat) (b : bool) :
  wellFormed w ->
  method req <> js "OPTIONS" ->
  url req = Some (path ++ js "?name=" ++ n) ->
  includes (js "/toggle") (path ++ js "?name=" ++ n) = true ->
  ~ In QUESTION path -> ~ In QUESTION n -> ~ In PERCENT n ->
  firstNamed w n = Some i ->
  stateOf w i = Some b ->
  let out := uninterrupted (emitRequest req w) in
  stateOf out.1 i = Some (negb b)
  /\ (forall j, j <> i -> stateOf out.1 j = stateOf w j)
  /\ out.2 = inl (length (responses w)).
Proof.
  intros Hwf Hm Hurl Hinc Hp Hn Hpc Hfirst Hb out.
  assert (Hraw : nameRawOf (queryOf req) = n) by by apply (nameRaw_canonical _ path).
  assert (Htog : togglesFor n req).
  { split; [done|]. split.
    - unfold urlIncludesToggle. by rewrite Hurl.
    - rewrite Hraw. by apply DecodeFrom_no_percent. }
  destruct (find_first _ _ _ Hfirst) as (Hname & _).
  apply bool_decide_eq_true_1 in Hname.
  destruct (nameOf_Some _ _ _ Hname) as (c & sw & Hc & Hsw & _).
  assert (Hbc : b = states_On c).
  { unfold stateOf in Hb. rewrite Hc in Hb. by injection Hb. }
  destruct (toggle_request_sleeps _ _ _ _ _ _ Hwf Htog Hfirst Hc Hsw)
    as (k & Hk).
  set (w0 := with_responses (responses w ++ [openResponse]) w) in *.
  set (w1 := afterSetOn i c sw (negb (states_On c)) w0) in *.
  assert (Hk' : forall w', Keeps sameStates w' (k w')).
  { assert (Ht : Tails sameStates (emitRequest req w)).
    { apply tails_emitRequest; [typeclasses eauto | ..]; intros.
      - apply hostCall_states.
      - unfold writeHead. apply updateResponse_states.
      - unfold end_. apply updateResponse_states. }
    rewrite Hk in Ht. exact Ht. }
  assert (Hfinal : sameStates w1 out.1).
  { unfold out. rewrite Hk. cbn [uninterrupted].
    apply keeps_uninterrupted; [typeclasses eauto | apply Hk']. }
  split.
  { rewrite Hfinal, Hbc. apply (stateOf_afterSetOn i c sw _ w0 Hc). }
  split.
  { intros j Hj. rewrite Hfinal.
    apply (stateOf_afterSetOn_other i c sw _ w0 j Hj). }
  apply (answered_unless_malformed w req Hwf Hm).
  intros _. destruct Htog as (_ & _ & ->). by eexists.
Qed.

Lemma plain_name_toggles_witness :
  let out := uninterrupted
               (emitRequest (GET "/api/toggle?name=Garage") kitchenGarage) in
  stateOf out.1 1 = Some (negb false)
  /\ (forall j, j <> 1 -> stateOf out.1 j = stateOf kitchenGarage j)
  /\ out.2 = inl (length (responses kitchenGarage)).
Proof.
  apply (plain_name_toggles kitchenGarage (GET "/api/toggle?name=Garage")
           (js "/api/toggle") (js "Garage") 1 false).
  - exact wellFormed_kitchenGarage.
  - intros H. vm_compute in H. discriminate H.
  - reflexivity.
  - vm_compute. reflexivity.
  - intros H. vm_compute in H. intuition discriminate.
  - intros H. vm_compute in H. intuition discriminate.
  - intros H. vm_compute in H. intuition discriminate.
  - vm_compute. reflexivity.
  - vm_compute. reflexivity.
Defined.

Lemma queryOf_until_second req path q rest :
  url req = Some (path ++ QUESTION :: q ++ QUESTION :: rest) ->
  ~ In QUESTION path -> ~ In QUESTION q ->
  queryOf req = Some q.
Proof.
  intros Hu Hp Hq. unfold queryOf. rewrite Hu.
  assert (Hs : split QUESTION (path ++ QUESTION :: q ++ QUESTION :: rest) !! 1%nat
               = Some q).
  { by rewrite !split_at_separator. }
  destruct (path ++ QUESTION :: q ++ QUESTION :: rest) as [|c u] eqn:Hcat.
  - by destruct path.
  - exact Hs.
Qed.

Lemma queryOf_single req path q :
  url req = Some (path ++ QUESTION :: q) ->
  ~ In QUESTION path -> ~ In QUESTION q ->
  queryOf req = Some q.
Proof.
  intros Hu Hp Hq. unfold queryOf. rewrite Hu.
  assert (Hs : split QUESTION (path ++ QUESTION :: q) !! 1%nat = Some q).
  { rewrite split_at_separator by done. by rewrite split_no_separator. }
  destruct (path ++ QUESTION :: q) as [|c u] eqn:Hcat.
  - by destruct path.
  - exact Hs.
Qed.

(** [X11] The handler reads the URL only up to its second [?]: a request whose
    URL goes on after a second [?] asks for the same name as the request
    whose URL stops before it.  A switch whose name holds a [?] is thus
    not found under its plain name. *)
Theorem url_read_up_to_second_question_mark
  (req req' : IncomingMessage) (path q rest : jsstring) :
  url req = Some (path ++ QUESTION :: q ++ QUESTION :: rest) ->
  url req' = Some (path ++ QUESTION :: q) ->
  ~ In QUESTION path -> ~ In QUESTION q ->
  queryOf req = Some q
  /\ nameRawOf (queryOf req) = nameRawOf (queryOf req')
  /\ decodeURIComponent (nameRawOf (queryOf req))
     = decodeURIComponent (nameRawOf (queryOf req')).
Proof.
  intros Hu Hu' Hp Hq.
  rewrite (queryOf_until_second req path q rest), (queryOf_single req' path q);
    done.
Qed.

Lemma url_read_up_to_second_question_mark_witness :
  let req := GET "/toggle?name=Who?" in
  let req' := GET "/toggle?name=Who" in
  queryOf req = Some (js "name=Who")
  /\ nameRawOf (queryOf req) = nameRawOf (queryOf req')
  /\ decodeURIComponent (nameRawOf (queryOf req))
     = decodeURIComponent (nameRawOf (queryOf req')).
Proof.
  apply (url_read_up_to_second_question_mark
           (GET "/toggle?name=Who?") (GET "/toggle?name=Who")
           (js "/toggle") (js "name=Who") []).
  - reflexivity.
  - reflexivity.
  - intros H. vm_compute in H. intuition discriminate.
  - intros H. vm_compute in H. intuition discriminate.
Defined.

(** ** The controller, further *)

(** [X13] What a toggle does to the outside: [toggleState()] on a constructed
    controller, run to completion with nothing interleaved, waits 300 ms
    once, writes one informational log entry, negates the On state of its
    controller and sends the host exactly one update of the characteristic
    On, which carries the new state; nothing else in the world changes.
    The update is built when the delay ends: it carries the On state the
    controller has by then. *)
Theorem toggleState_effects
  (this : nat) (c : PlatformSwitchAccessory) (sw : SwitchConfig) (w : World) :
  controllers w !! this = Some c ->
  context_switch (accessory c) = Some sw ->
  uninterrupted (toggleState this w)
  = (with_host
       (host w ++ [UpdateCharacteristic (UUID (accessory c)) Switch On
                     (VBoolean (negb (states_On c)))])
       (with_controllers
          (<[this := {| accessory := accessory c;
                        states_On := negb (states_On c) |}]> (controllers w))
          (with_log
             (log w ++ [{| level := LInfo;
                           message := js "Set Characteristic On -> for "
                                        ++ QUOTE ++ name sw ++ QUOTE;
                           params := [VBoolean (negb (states_On c))] |}]) w)),
     inl tt)
  /\ delays (toggleState this w) = [300%N]
  /\ exists w1 k,
       toggleState this w = Sleeping w1 300 k
       /\ forall w' c',
            controllers w' !! this = Some c' ->
            k w' = Returned
                     (with_host
                        (host w' ++ [UpdateCharacteristic (UUID (accessory c'))
                                       Switch On (VBoolean (states_On c'))]) w')
                     tt.
Proof.
  intros Hc Hsw.
  split; [exact (toggleState_uninterrupted this c sw w Hc Hsw)|].
  rewrite (toggleState_run this c sw w Hc Hsw).
  split.
  - cbn [delays].
    by rewrite (propagateOn_run _ _ _ (afterSetOn_lookup _ _ sw _ _ Hc)).
  - eexists _, _. split; [reflexivity|].
    intros w' c' Hc'. by apply propagateOn_run.
Qed.

Lemma toggleState_effects_witness :
  let c := {| accessory := cachedRecord "Garage"; states_On := false |} in
  let sw := cfg "Garage" in
  let w := kitchenGarage in
  uninterrupted (toggleState 1 w)
  = (with_host
       (host w ++ [UpdateCharacteristic (UUID (accessory c)) Switch On
                     (VBoolean (negb (states_On c)))])
       (with_controllers
          (<[1 := {| accessory := accessory c;
                     states_On := negb (states_On c) |}]> (controllers w))
          (with_log
             (log w ++ [{| level := LInfo;
                           message := js "Set Characteristic On -> for "
                                        ++ QUOTE ++ name sw ++ QUOTE;
                           params := [VBoolean (negb (states_On c))] |}]) w)),
     inl tt)
  /\ delays (toggleState 1 w) = [300%N]
  /\ exists w1 k,
       toggleState 1 w = Sleeping w1 300 k
       /\ forall w' c',
            controllers w' !! 1 = Some c' ->
            k w' = Returned
                     (with_host
                        (host w' ++ [UpdateCharacteristic (UUID (accessory c'))
                                       Switch On (VBoolean (states_On c'))]) w')
                     tt.
Proof.
  apply (toggleState_effects 1
           {| accessory := cachedRecord "Garage"; states_On := false |}
           (cfg "Garage") kitchenGarage); reflexivity.
Defined.

(** ** Sets from the host *)

#[local] Instance sameBound_preorder : PreOrder sameBound.
Proof.
  split; [by intros w c|]. intros a b c Hab Hbc i. by rewrite Hbc, Hab.
Qed.

Section FramesKeeps.

Context (R : World -> World -> Prop) `{!PreOrder R}.

Hypothesis F_log : forall l m ps w, Keeps R w (logCall l m ps w).
Hypothesis F_propagate : forall c v w, Keeps R w (hostCall (propagated c v) w).
Hypothesis F_assign : forall this v w, Keeps R w (assignOn this v w).
Hypothesis F_update : forall res f w, Keeps R w (updateResponse res f w).
Hypothesis F_alloc :
  forall w, R w (with_responses (responses w ++ [freshResponse]) w).
Hypothesis F_configure : forall a w, Keeps R w (configureAccessory a w).

Lemma frame_requestListener req res w : Keeps R w (requestListener req res w).
Proof.
  unfold requestListener, setHeader.
  do 4 (apply keeps_bind; [done | intros; apply F_update | intros _ ?]).
  destruct (eqb (method req) (js "OPTIONS")).
  - unfold writeHead, end_.
    apply keeps_bind; [done | |]; intros; apply F_update.
  - apply frame_handleRequest; try done; intros; apply F_update.
Qed.

Lemma frame_emitRequest req w : Keeps R w (emitRequest req w).
Proof.
  rewrite emitRequest_listener.
  apply keeps_andThen; [done | | intros; by constructor].
  eapply Keeps_from; [done | apply F_alloc | apply frame_requestListener].
Qed.

Lemma step_Quiet_keeps e s :
  e <> DidFinishLaunching -> Quiet R s ->
  Quiet R (step e s) /\ R (world s) (world (step e s)).
Proof.
  intros He Hq.
  assert (Hsame : Quiet R s /\ R (world s) (world s)) by (split; [done | reflexivity]).
  assert (Hemit : forall req w,
            Keeps R w (bind (emitRequest req) (fun _ => ret tt) w)).
  { intros. apply keeps_bind;
      [done | intros; apply frame_emitRequest | intros; by constructor]. }
  assert (Hget : forall c w, Keeps R w (bind (getOn c) (fun _ => ret tt) w)).
  { intros. apply keeps_bind;
      [done | intros; by apply frame_getOn | intros; by constructor]. }
  assert (Hset : forall c v w, Keeps R w (setOn c v w)).
  { intros. by apply frame_setOn. }
  destruct e; cbn [step]; unfold start; try done.
  - apply settle_Quiet_keeps; [apply F_configure | exact Hq].
  - apply settle_Quiet_keeps; [apply F_log | exact Hq].
  - destruct (requestServer (world s)); [|exact Hsame].
    apply settle_Quiet_keeps; [apply Hemit | exact Hq].
  - by apply fire_Quiet.
  - destruct (boundOnSet _ _); [|exact Hsame].
    apply settle_Quiet_keeps; [apply Hset | exact Hq].
  - destruct (boundOnGet _ _); [|exact Hsame].
    apply settle_Quiet_keeps; [apply Hget | exact Hq].
Qed.

End FramesKeeps.

Lemma boundOnSet_app c l l' :
  boundOnSet c (l ++ l') = boundOnSet c l || boundOnSet c l'.
Proof. apply existsb_app. Qed.

Lemma step_sameBound e s :
  e <> DidFinishLaunching -> Quiet sameBound s ->
  Quiet sameBound (step e s) /\ sameBound (world s) (world (step e s)).
Proof.
  apply step_Quiet_keeps; try typeclasses eauto; intros.
  - constructor. by intros c.
  - constructor. intros i. cbn [host with_host]. rewrite boundOnSet_app. cbn.
    by rewrite !orb_false_r.
  - apply assignOn_responses; [typeclasses eauto|]. by intros x w0 i.
  - unfold updateResponse. destruct (responses w !! res); constructor; by intros i.
  - by intros i.
  - unfold configureAccessory, logCall, modify, bind. cbn. constructor. by intros i.
Qed.

Lemma nameOf_grow w w' l i n :
  controllers w' = controllers w ++ l ->
  nameOf w i = Some n -> nameOf w' i = Some n.
Proof.
  intros Hc Hn. destruct (nameOf_Some _ _ _ Hn) as (c & sw & Hi & Hsw & <-).
  unfold nameOf. rewrite Hc, (lookup_app_l_Some _ _ _ _ Hi). cbn. by rewrite Hsw.
Qed.

Lemma handlersBound_new w w' a calls :
  handlersBound w ->
  controllers w' = controllers w ++ [{| accessory := a; states_On := false |}] ->
  host w' = host w ++ calls ->
  (forall c, boundOnSet c calls = true ->
             c = length (controllers w) /\ is_Some (context_switch a)) ->
  handlersBound w'.
Proof.
  intros Hb Hc Hh Hcalls c. rewrite Hh, boundOnSet_app.
  intros [Hold|Hnew]%orb_true_iff.
  - destruct (Hb c Hold) as [n Hn]. exists n. by apply (nameOf_grow w _ _ _ _ Hc).
  - destruct (Hcalls c Hnew) as [-> [sw Hsw]]. exists (name sw).
    unfold nameOf. rewrite Hc, list_lookup_middle by done. cbn. by rewrite Hsw.
Qed.

Lemma boundOnSet_constructorCalls a n this c :
  boundOnSet c (constructorCalls a n this) = true -> c = this.
Proof.
  cbn. rewrite !orb_false_r. by intros H%Nat.eqb_eq.
Qed.

Lemma discoverDevice_bound button w :
  handlersBound w -> Settled handlersBound (discoverDevice button w).
Proof.
  intros Hb.
  destruct (findAccessory (generate w (name button)) (accessories w))
    as [a|] eqn:Hfind.
  - destruct (context_switch a) as [sw|] eqn:Hsw.
    + rewrite (discoverDevice_restore _ _ _ _ Hfind Hsw). cbn [Settled].
      apply (handlersBound_new w _ a
               (constructorCalls a (name sw) (length (controllers w))));
        [done | done | done |].
      intros c Hc. split; [by eapply boundOnSet_constructorCalls | by eexists].
    + unfold discoverDevice, bind at 1 2, gets. cbn [andThen].
      rewrite Hfind. unfold bind, logCall, modify. cbn [andThen].
      rewrite (new_throws_at a _ Hsw). cbn [andThen Settled].
      eapply (handlersBound_new w _ a); [done | done | done |].
      intros c Hc. cbn in Hc. discriminate Hc.
  - rewrite (discoverDevice_add _ _ Hfind). cbn [Settled].
    apply (handlersBound_new w _ (newRecord w button)
             (constructorCalls (newRecord w button) (name button)
                (length (controllers w))
              ++ [RegisterPlatformAccessories [newRecord w button]]));
      [done | done | |].
    + cbn. by rewrite <- app_assoc.
    + intros c. rewrite boundOnSet_app. cbn [boundOnSet existsb].
      rewrite !orb_false_r. intros Hc.
      split; [by eapply boundOnSet_constructorCalls | by eexists].
Qed.

Lemma forEach_bound l : forall w,
  handlersBound w -> Settled handlersBound (forEach discoverDevice l w).
Proof.
  induction l as [|b l IH]; intros w Hb; [exact Hb|].
  cbn [forEach]. unfold bind.
  pose proof (discoverDevice_bound b w Hb) as H.
  destruct (discoverDevice b w) as [w' []|w' e|w' ms k]; cbn in *;
    [by apply IH | done | done].
Qed.

Lemma didFinishLaunching_bound w :
  handlersBound w -> Settled handlersBound (didFinishLaunching w).
Proof.
  intros Hb. unfold didFinishLaunching, createHttpService, discoverDevices.
  unfold bind at 1, modify. cbn [andThen]. unfold bind, gets. cbn [andThen].
  change (config_switches (with_requestServer (Some 18082%N) w))
    with (config_switches w).
  destruct (config_switches w) as [sws|]; [|exact Hb].
  by apply forEach_bound.
Qed.

Lemma step_bound e s :
  quiet s -> Quiet sameBound s -> handlersBound (world s) ->
  handlersBound (world (step e s)).
Proof.
  intros Hq Hs Hb.
  assert (Hother : e <> DidFinishLaunching -> handlersBound (world (step e s))).
  { intros He c. destruct (step_same e s He Hq) as [_ [_ Hn]].
    destruct (step_sameBound e s He Hs) as [_ Hsame].
    rewrite Hsame, Hn. apply Hb. }
  destruct e; try (apply Hother; discriminate).
  cbn. unfold start.
  pose proof (didFinishLaunching_bound _ Hb) as H.
  by destruct (didFinishLaunching (world s)).
Qed.

Lemma step_Quiet_sameBound e s : Quiet sameBound s -> Quiet sameBound (step e s).
Proof.
  intros Hs.
  assert (Hother : e <> DidFinishLaunching -> Quiet sameBound (step e s)).
  { intros He. by apply step_sameBound. }
  destruct e; try (apply Hother; discriminate).
  cbn [step]. unfold start. apply settle_Quiet_tails; [|done].
  apply immediate_tails, didFinishLaunching_immediate.
Qed.

Lemma reachable_bound cfgName switches gen es :
  handlersBound (world (run es (boot cfgName switches gen))).
Proof.
  assert (H : forall s, quiet s -> Quiet sameBound s -> handlersBound (world s) ->
                        handlersBound (world (run es s))).
  { induction es as [|e es IH]; intros s Hq Hs Hb; [exact Hb|].
    cbn. apply IH;
      [by apply step_quiet | by apply step_Quiet_sameBound | by apply step_bound]. }
  apply H; [apply boot_quiet | constructor | by intros c].
Qed.

(** [X14] A set from the host takes effect at once and never throws: in every
    state the program can reach, when the host calls the handler a
    controller gave it with [onSet], that controller exists with its
    context, the call logs its entry and assigns the value before it
    waits, so that the state is the value set as soon as control is back
    at the event loop, and no error is left uncaught. *)
Theorem host_set_takes_effect
  (cfgName : JsValue) (switches : option (list SwitchConfig))
  (gen : jsstring -> jsstring) (es : list Event) (c : nat) (v : bool) :
  let s := run es (boot cfgName switches gen) in
  boundOnSet c (host (world s)) = true ->
  exists cc sw,
    controllers (world s) !! c = Some cc
    /\ context_switch (accessory cc) = Some sw
    /\ world (step (HostSet c v) s) = afterSetOn c cc sw v (world s)
    /\ stateOf (world (step (HostSet c v) s)) c = Some v
    /\ (forall j, j <> c ->
         stateOf (world (step (HostSet c v) s)) j = stateOf (world s) j)
    /\ uncaught (step (HostSet c v) s) = uncaught s.
Proof.
  intros s Hbound.
  destruct (reachable_bound cfgName switches gen es c Hbound) as [n Hn].
  fold s in Hn.
  destruct (nameOf_Some _ _ _ Hn) as (cc & sw & Hc & Hsw & _).
  exists cc, sw. split; [exact Hc|]. split; [exact Hsw|].
  cbn [step]. rewrite Hbound. unfold start.
  rewrite (setOn_run c cc sw v (world s) Hc Hsw). cbn [settle world uncaught].
  split; [done|]. split; [by apply stateOf_afterSetOn|].
  split; [|done]. intros j Hj. by apply stateOf_afterSetOn_other.
Qed.

Lemma host_set_takes_effect_witness :
  let s := run [DidFinishLaunching]
             (boot VUndefined (Some [cfg "Kitchen"; cfg "Garage"]) mockGenerate) in
  exists cc sw,
    controllers (world s) !! 1 = Some cc
    /\ context_switch (accessory cc) = Some sw
    /\ world (step (HostSet 1 true) s) = afterSetOn 1 cc sw true (world s)
    /\ stateOf (world (step (HostSet 1 true) s)) 1 = Some true
    /\ (forall j, j <> 1 ->
         stateOf (world (step (HostSet 1 true) s)) j = stateOf (world s) j)
    /\ uncaught (step (HostSet 1 true) s) = uncaught s.
Proof.
  apply (host_set_takes_effect VUndefined (Some [cfg "Kitchen"; cfg "Garage"])
           mockGenerate [DidFinishLaunching] 1 true).
  vm_compute. reflexivity.
Defined.
